(** * Navya Jewels storefront: the handlers of [server.js]

    A shallow embedding of the request handlers of [src/server.js]: the
    catalogue pages, the session cart, checkout and orders, accounts,
    contact and the flat-file store, followed by the properties the
    specification states about them and further properties of the code.

    Modelling conventions.
    - A JavaScript number is an IEEE double.  The handlers compute with
      the integers read from the files and with what [parseInt] returns, so
      every number is an integer-valued double, NaN or an infinity:
      [Js.Num z] is the double of integer value [z], and sums and products
      are rounded to the nearest double, ties to even, as the hardware
      does.  The sign of zero is not tracked; no operation of the handlers
      tells the two zeros apart.
    - A string is its UTF-8 encoding.
    - A request body or query field is [option string]: [None] when the
      field is not submitted ([undefined] in the source).
    - The file system is a finite map from paths to file contents; a path
      outside its domain cannot be read.  [JSON.parse] and [JSON.stringify]
      are an interface ([Json]) the handlers are generic in.  A file that
      parses is taken to hold an array of records of its collection's
      shape, whose numbers are integers a double holds.
    - A handler works on the session object of its request.  Between two
      requests the session store keeps the session as JSON text, which
      [stored] accounts for.
    - The submitted quantity field is absent or a plain object with
      string values: a lookup finds its own keys and the members it
      inherits from [Object.prototype]. *)

From Stdlib Require Import ZArith Lia Ascii String.
From stdpp Require Import base option strings list gmap pretty.

Open Scope Z_scope.

(** ** JavaScript numbers, truthiness and [parseInt] *)

Module Js.

(** The values a quantity or a total takes: a double, or the [null] the
    session store writes for a double JSON has no text for. *)
Inductive number : Type :=
| Num (z : Z)                 (* the finite double of integer value [z] *)
| NaN
| Infinity (negative : bool)
| Null.

(** Rounding of a natural number to 53 significant bits, to nearest, ties
    to even: the integer a double holds in place of [a] when the exponent
    is unbounded. *)
Definition round_to_53_bits (a : Z) : Z :=
  if a <=? 2 ^ 53 then a
  else
    let e := Z.log2 a - 52 in
    let q := Z.shiftr a e in
    let r := a - Z.shiftl q e in
    let half := Z.shiftl 1 (e - 1) in
    let q' :=
      if r <? half then q
      else if half <? r then q + 1
      else if Z.even q then q else q + 1 in
    Z.shiftl q' e.

(** The Number value for the mathematical integer [z]: the nearest double,
    an infinity from 2^1024 on. *)
Definition number_of (z : Z) : number :=
  let r := round_to_53_bits (Z.abs z) in
  if 2 ^ 1024 <=? r then Infinity (z <? 0) else Num (Z.sgn z * r).

(** The integer value of a finite operand; [null] converts to 0. *)
Definition value (a : number) : Z :=
  match a with
  | Num z => z
  | _ => 0
  end.

(** [a + b] on numbers. *)
Definition add (a b : number) : number :=
  match a, b with
  | NaN, _ | _, NaN => NaN
  | Infinity s, Infinity t => if Bool.eqb s t then Infinity s else NaN
  | Infinity s, _ => Infinity s
  | _, Infinity t => Infinity t
  | _, _ => number_of (value a + value b)
  end.

(** [a * b] on numbers. *)
Definition mul (a b : number) : number :=
  match a, b with
  | NaN, _ | _, NaN => NaN
  | Infinity s, Infinity t => Infinity (xorb s t)
  | Infinity s, _ =>
      if value b =? 0 then NaN else Infinity (xorb s (value b <? 0))
  | _, Infinity t =>
      if value a =? 0 then NaN else Infinity (xorb (value a <? 0) t)
  | _, _ => number_of (value a * value b)
  end.

(** [a > b]; a comparison with NaN is false. *)
Definition gt (a b : number) : bool :=
  match a, b with
  | NaN, _ | _, NaN => false
  | Infinity s, Infinity t => negb s && t
  | Infinity s, _ => negb s
  | _, Infinity t => t
  | _, _ => bool_decide (value b < value a)
  end.



(** Truthiness of a string: only the empty string is falsy. *)
Definition truthy_str (s : string) : bool :=
  match s with
  | EmptyString => false
  | String _ _ => true
  end.

(** Truthiness of a possibly-undefined string field. *)
Definition truthy_field (f : option string) : bool :=
  match f with
  | None => false
  | Some s => truthy_str s
  end.

(** [f || d] for a possibly-undefined string field and a string default. *)
Definition or_default (f : option string) (d : string) : string :=
  match f with
  | Some s => if truthy_str s then s else d
  | None => d
  end.

Definition byte (c : ascii) : nat := nat_of_ascii c.

(** The white space and line terminators [parseInt] skips, in UTF-8:
    TAB, LF, VT, FF, CR, SP; U+00A0; U+1680; U+2000 to U+200A, U+2028,
    U+2029, U+202F; U+205F; U+3000; U+FEFF.  The rest of the string after
    one such character, if it starts with one. *)
Definition after_white_space (s : string) : option string :=
  match s with
  | String c1 rest1 =>
      let b1 := byte c1 in
      if bool_decide (b1 = 9 ∨ b1 = 10 ∨ b1 = 11 ∨ b1 = 12 ∨ b1 = 13
                      ∨ b1 = 32)%nat
      then Some rest1
      else
        match rest1 with
        | String c2 rest2 =>
            let b2 := byte c2 in
            if bool_decide (b1 = 194 ∧ b2 = 160)%nat then Some rest2
            else
              match rest2 with
              | String c3 rest3 =>
                  let b3 := byte c3 in
                  if bool_decide
                       ((b1 = 225 ∧ b2 = 154 ∧ b3 = 128)
                        ∨ (b1 = 226 ∧ b2 = 128
                           ∧ (128 ≤ b3 ≤ 138 ∨ b3 = 168 ∨ b3 = 169
                              ∨ b3 = 175))
                        ∨ (b1 = 226 ∧ b2 = 129 ∧ b3 = 159)
                        ∨ (b1 = 227 ∧ b2 = 128 ∧ b3 = 128)
                        ∨ (b1 = 239 ∧ b2 = 187 ∧ b3 = 191))%nat
                  then Some rest3
                  else None
              | EmptyString => None
              end
        | EmptyString => None
        end
  | EmptyString => None
  end.

(** Leading white space removed; [fuel] bounds the number of characters
    looked at and is the length of the string where this is used. *)
Fixpoint skip_white_space (fuel : nat) (s : string) : string :=
  match fuel with
  | O => s
  | S fuel' =>
      match after_white_space s with
      | Some rest => skip_white_space fuel' rest
      | None => s
      end
  end.

(** The value of a decimal digit. *)
Definition digit_value (c : ascii) : option Z :=
  let n := nat_of_ascii c in
  if bool_decide (48 <= n <= 57)%nat then Some (Z.of_nat n - 48) else None.

(** The longest prefix of decimal digits, read as an integer; [acc] is
    [None] until a first digit has been read. *)
Fixpoint read_digits (acc : option Z) (s : string) : option Z :=
  match s with
  | String c rest =>
      match digit_value c with
      | Some d => read_digits (Some (10 * default 0 acc + d)) rest
      | None => acc
      end
  | EmptyString => acc
  end.

(** [parseInt(s, 10)]: skip white space, take an optional sign, read the
    longest run of digits and return the Number value of that integer; NaN
    when there is no digit. *)
Definition parseInt (s : string) : number :=
  let t := skip_white_space (String.length s) s in
  let '(sign, body) :=
    match t with
    | String "-" rest => (-1, rest)
    | String "+" rest => (1, rest)
    | _ => (1, t)
    end in
  match read_digits None body with
  | Some n => number_of (sign * n)
  | None => NaN
  end.

End Js.

(** ** Exceptions and the flat-file store *)

Inductive exn : Type :=
| FsError       (* thrown by [fs.readFileSync] *)
| SyntaxError.  (* thrown by [JSON.parse] *)

Inductive result (A : Type) : Type :=
| Ok (a : A)
| Throw (e : exn).

Arguments Ok {A} a.
Arguments Throw {A} e.

Definition bind {A B} (r : result A) (k : A → result B) : result B :=
  match r with
  | Ok a => k a
  | Throw e => Throw e
  end.

Notation "x ←? r ; k" := (bind r (λ x, k))
  (at level 20, r at level 100, k at level 200, only parsing).

(** [try { body } catch (e) { handler }] where both branches return. *)
Definition try_catch {A} (body : result A) (handler : exn → A) : A :=
  match body with
  | Ok a => a
  | Throw e => handler e
  end.

(** [JSON.parse] and [JSON.stringify] at the type of one collection. *)
Class Json (A : Type) : Type := {
  JSON_parse : string → result A;
  JSON_stringify : A → string;
}.

(** Paths, relative to [__dirname]. *)
Definition DATA_DIR : string := "data".
Definition USERS_FILE : string := DATA_DIR +:+ "/users.json".
Definition PRODUCTS_FILE : string := DATA_DIR +:+ "/products.json".
Definition ORDERS_FILE : string := DATA_DIR +:+ "/orders.json".
Definition CONTACTS_FILE : string := DATA_DIR +:+ "/contacts.json".

(** [fs.readFileSync(filePath, "utf8")]. *)
Definition readFileSync (fs : gmap string string) (filePath : string)
  : result string :=
  match fs !! filePath with
  | Some raw => Ok raw
  | None => Throw FsError
  end.

(** [fs.writeFileSync(filePath, text)]; the write itself is taken to
    succeed. *)
Definition writeFileSync (fs : gmap string string) (filePath text : string)
  : gmap string string :=
  <[filePath := text]> fs.

(** [raw || "[]"]. *)
Definition raw_or_empty_array (raw : string) : string :=
  if Js.truthy_str raw then raw else "[]".

Definition readJson {A} `{!Json (list A)}
    (fs : gmap string string) (filePath : string) : list A :=
  try_catch
    (raw ←? readFileSync fs filePath;
     JSON_parse (raw_or_empty_array raw))
    (λ e, []).

Definition writeJson {A} `{!Json A}
    (fs : gmap string string) (filePath : string) (data : A)
  : gmap string string :=
  writeFileSync fs filePath (JSON_stringify data).

(** ** Records *)

Module Product.
Record t : Type := mk {
  id : string;
  name : string;
  price : Z;
  image : string;
  category : string;
  metal : string;
  carat : Z;
  description : string;
}.
End Product.

Module CartEntry.
Record t : Type := mk {
  productId : string;
  quantity : Js.number;
}.
End CartEntry.

(** A line item of the cart and checkout views: it holds the product. *)
Module LineItem.
Record t : Type := mk {
  product : Product.t;
  quantity : Js.number;
  lineTotal : Js.number;
}.
End LineItem.

(** A line item of an order: copies of the product's fields. *)
Module OrderItem.
Record t : Type := mk {
  productId : string;
  name : string;
  price : Z;
  quantity : Js.number;
}.
End OrderItem.

Module Order.
Record t : Type := mk {
  id : string;
  userId : string;
  customerName : option string;
  phone : option string;
  address : option string;
  city : option string;
  pincode : option string;
  paymentMethod : option string;
  items : list OrderItem.t;
  total : Js.number;
  status : string;
  createdAt : string;
}.
End Order.

(** The projection of a user kept in the session. *)
Module SessionUser.
Record t : Type := mk {
  id : string;
  name : string;
  email : option string;
  phone : option string;
}.
End SessionUser.

(** [req.session]: either field may be undefined. *)
Module Session.
Record t : Type := mk {
  user : option SessionUser.t;
  cart : option (list CartEntry.t);
}.
Definition set_cart (s : t) (c : list CartEntry.t) : t :=
  mk (user s) (Some c).
End Session.

(** The body of [POST /checkout]. *)
Module CheckoutBody.
Record t : Type := mk {
  name : option string;
  phone : option string;
  address : option string;
  city : option string;
  pincode : option string;
  paymentMethod : option string;
}.
End CheckoutBody.

(** What a handler hands to [res.render], per view. *)
Inductive Locals : Type :=
| CartLocals (pageTitle : string)
    (cartItems : list LineItem.t) (total : Js.number)
| CheckoutLocals (pageTitle : string)
    (cartItems : list LineItem.t) (total : Js.number) (error : option string)
| MetalListLocals (pageTitle heading subtitle metal : string)
    (caratFilter : Js.number) (products : list Product.t)
| OrdersLocals (pageTitle : string) (orders : list Order.t).

Inductive Response : Type :=
| Render (view : string) (locals : Locals)
| Redirect (location : string).

(** ** Catalogue lookup and the two forms of cart materialisation *)

(** [products.find((p) => p.id === productId)]. *)
Definition find_product (products : list Product.t) (productId : string)
  : option Product.t :=
  snd <$> list_find (λ p, Product.id p = productId) products.

(** [.filter(Boolean)] on an array of objects and [null]s. *)
Fixpoint filter_Boolean {A} (l : list (option A)) : list A :=
  match l with
  | [] => []
  | Some x :: rest => x :: filter_Boolean rest
  | None :: rest => filter_Boolean rest
  end.

(** The callback of [cart.map] in [GET /cart], [GET /checkout] and the
    validation branch of [POST /checkout] (the same text in all three). *)
Definition detail_live (products : list Product.t) (item : CartEntry.t)
  : option LineItem.t :=
  match find_product products (CartEntry.productId item) with
  | None => None
  | Some product =>
      Some (LineItem.mk product (CartEntry.quantity item)
              (Js.mul (Js.Num (Product.price product))
                      (CartEntry.quantity item)))
  end.

Definition detailedCart_live (products : list Product.t)
    (cart : list CartEntry.t) : list LineItem.t :=
  filter_Boolean (detail_live products <$> cart).

(** [detailedCart.reduce((sum, item) => sum + item.lineTotal, 0)]. *)
Definition total_live (detailedCart : list LineItem.t) : Js.number :=
  foldl (λ sum item, Js.add sum (LineItem.lineTotal item)) (Js.Num 0)
        detailedCart.

(** The callback of [cart.map] on the order path of [POST /checkout]. *)
Definition detail_snapshot (products : list Product.t) (item : CartEntry.t)
  : option OrderItem.t :=
  match find_product products (CartEntry.productId item) with
  | None => None
  | Some product =>
      Some (OrderItem.mk (Product.id product) (Product.name product)
              (Product.price product) (CartEntry.quantity item))
  end.

Definition detailedCart_snapshot (products : list Product.t)
    (cart : list CartEntry.t) : list OrderItem.t :=
  filter_Boolean (detail_snapshot products <$> cart).

(** [detailedCart.reduce((sum, item) => sum + item.price * item.quantity, 0)]. *)
Definition total_snapshot (detailedCart : list OrderItem.t) : Js.number :=
  foldl (λ sum item,
           Js.add sum (Js.mul (Js.Num (OrderItem.price item))
                              (OrderItem.quantity item)))
        (Js.Num 0) detailedCart.

(** ** Cart handlers (they touch the session only) *)

(** [req.session.cart || []]. *)
Definition cart_or_empty (s : Session.t) : list CartEntry.t :=
  default [] (Session.cart s).

(** [POST /cart/add/:id].  [existing] is a reference into the cart array:
    the index [list_find] returns, updated in place. *)
Definition post_cart_add (id : string) (body_quantity : option string)
    (s : Session.t) : Session.t * Response :=
  let productId := id in
  let qty := Js.parseInt (Js.or_default body_quantity "1") in
  let cart := cart_or_empty s in
  let cart' :=
    match list_find (λ item, CartEntry.productId item = productId) cart with
    | Some (i, existing) =>
        <[i := CartEntry.mk (CartEntry.productId existing)
                 (Js.add (CartEntry.quantity existing) qty)]> cart
    | None => cart ++ [CartEntry.mk productId qty]
    end in
  (Session.set_cart s cart', Redirect "/cart").

(** [POST /cart/remove/:id]. *)
Definition post_cart_remove (id : string) (s : Session.t)
  : Session.t * Response :=
  let productId := id in
  (Session.set_cart s
     (filter (λ item, CartEntry.productId item ≠ productId)
             (cart_or_empty s)),
   Redirect "/cart").

(** The names [Object.prototype] defines; an object written [{}] or built
    from a submitted form inherits a member under each of them. *)
Definition Object_prototype_names : list string :=
  [ "constructor"; "__defineGetter__"; "__defineSetter__"; "hasOwnProperty";
    "__lookupGetter__"; "__lookupSetter__"; "isPrototypeOf";
    "propertyIsEnumerable"; "toString"; "valueOf"; "__proto__";
    "toLocaleString" ].

(** What [quantities[key]] evaluates to: a submitted string, an inherited
    member (a function, or the prototype object under [__proto__]), or
    [undefined]. *)
Inductive member : Type :=
| Own (v : string)
| Inherited
| Undefined.

Definition get_member (quantities : gmap string string) (key : string)
  : member :=
  match quantities !! key with
  | Some v => Own v
  | None =>
      if bool_decide (key ∈ Object_prototype_names) then Inherited
      else Undefined
  end.

(** The body of the [forEach] callback of [POST /cart/update].  An
    inherited member is truthy, and [parseInt] of it is NaN: its text
    starts with [function] or is [[object Object]]. *)
Definition update_item (quantities : gmap string string) (item : CartEntry.t)
  : CartEntry.t :=
  match get_member quantities (CartEntry.productId item) with
  | Own v =>
      if Js.truthy_str v then
        let newQty := Js.parseInt v in
        CartEntry.mk (CartEntry.productId item)
          (if Js.gt newQty (Js.Num 0) then newQty else Js.Num 1)
      else item
  | Inherited =>
      let newQty := Js.NaN in
      CartEntry.mk (CartEntry.productId item)
        (if Js.gt newQty (Js.Num 0) then newQty else Js.Num 1)
  | Undefined => item
  end.

(** [POST /cart/update]; [body_quantity] is the submitted
    productId-to-quantity object, if any. *)
Definition post_cart_update (body_quantity : option (gmap string string))
    (s : Session.t) : Session.t * Response :=
  let quantities := default ∅ body_quantity in
  (Session.set_cart s (update_item quantities <$> cart_or_empty s),
   Redirect "/cart").

(** ** The session between two requests *)

(** The session store keeps [JSON.stringify(session)] and hands
    [JSON.parse] of it to the next request: a quantity that is NaN or an
    infinity comes back as [null], everything else as it was. *)
Definition stored_number (n : Js.number) : Js.number :=
  match n with
  | Js.Num z => Js.Num z
  | _ => Js.Null
  end.

Definition stored_entry (e : CartEntry.t) : CartEntry.t :=
  CartEntry.mk (CartEntry.productId e) (stored_number (CartEntry.quantity e)).

Definition stored (s : Session.t) : Session.t :=
  Session.mk (Session.user s)
    (match Session.cart s with
     | Some cart => Some (stored_entry <$> cart)
     | None => None
     end).

(** ** Handlers over the store *)

Section Server.
Context `{!Json (list Product.t)} `{!Json (list Order.t)}.

(** [GET /cart]. *)
Definition get_cart (fs : gmap string string) (s : Session.t) : Response :=
  let products := readJson fs PRODUCTS_FILE in
  let cart := cart_or_empty s in
  let detailedCart := detailedCart_live products cart in
  let total := total_live detailedCart in
  Render "cart" (CartLocals "Cart" detailedCart total).





(** The middleware [requireLogin]: [next] runs only with a session user. *)
Definition requireLogin {A} (s : Session.t) (redirect : Response → A)
    (next : SessionUser.t → A) : A :=
  match Session.user s with
  | None => redirect (Redirect "/login")
  | Some u => next u
  end.

(** [GET /checkout]. *)
Definition get_checkout (fs : gmap string string) (s : Session.t)
  : Response :=
  requireLogin s id (λ _,
    let products := readJson fs PRODUCTS_FILE in
    let cart := cart_or_empty s in
    if bool_decide (length cart = 0%nat) then Redirect "/cart"
    else
      let detailedCart := detailedCart_live products cart in
      let total := total_live detailedCart in
      Render "checkout"
        (CheckoutLocals "Checkout" detailedCart total None)).

(** [!name || !phone || !address || !city || !pincode || !paymentMethod]. *)
Definition missing_field (b : CheckoutBody.t) : bool :=
  negb (Js.truthy_field (CheckoutBody.name b))
  || negb (Js.truthy_field (CheckoutBody.phone b))
  || negb (Js.truthy_field (CheckoutBody.address b))
  || negb (Js.truthy_field (CheckoutBody.city b))
  || negb (Js.truthy_field (CheckoutBody.pincode b))
  || negb (Js.truthy_field (CheckoutBody.paymentMethod b)).

(** The order record [POST /checkout] builds; [now] is [Date.now()] and
    [iso] is [new Date().toISOString()]. *)
Definition newOrder (now : Z) (iso : string) (u : SessionUser.t)
    (b : CheckoutBody.t) (detailedCart : list OrderItem.t)
    (total : Js.number) : Order.t :=
  {| Order.id := "O" +:+ pretty now;
     Order.userId := SessionUser.id u;
     Order.customerName := CheckoutBody.name b;
     Order.phone := CheckoutBody.phone b;
     Order.address := CheckoutBody.address b;
     Order.city := CheckoutBody.city b;
     Order.pincode := CheckoutBody.pincode b;
     Order.paymentMethod := CheckoutBody.paymentMethod b;
     Order.items := detailedCart;
     Order.total := total;
     Order.status := "Pending";
     Order.createdAt := iso |}.

(** [POST /checkout]. *)
Definition post_checkout (now : Z) (iso : string) (b : CheckoutBody.t)
    (fs : gmap string string) (s : Session.t)
  : gmap string string * Session.t * Response :=
  requireLogin s (λ r, (fs, s, r)) (λ u,
    let products := readJson fs PRODUCTS_FILE in
    let cart := cart_or_empty s in
    if missing_field b then
      let detailedCart := detailedCart_live products cart in
      let total := total_live detailedCart in
      (fs, s,
       Render "checkout"
         (CheckoutLocals "Checkout" detailedCart total
            (Some "Please fill all fields.")))
    else
      let detailedCart := detailedCart_snapshot products cart in
      let total := total_snapshot detailedCart in
      let orders := readJson fs ORDERS_FILE in
      let orders := orders ++ [newOrder now iso u b detailedCart total] in
      let fs := writeJson fs ORDERS_FILE orders in
      (fs, Session.set_cart s [], Redirect "/orders")).

(** [GET /orders]. *)
Definition get_orders (fs : gmap string string) (s : Session.t) : Response :=
  requireLogin s id (λ u,
    let orders :=
      filter (λ o, Order.userId o = SessionUser.id u)
             (readJson fs ORDERS_FILE) in
    Render "orders" (OrdersLocals "My Orders" orders)).

End Server.

(** ** Sample data: records of the seed catalogue and a table-driven codec *)

Module Demo.

Definition G24N001 : Product.t :=
  Product.mk "G24N001" "24K Royal Heritage Necklace" 54999
    "/images/gold-necklace-24k.jpg" "Necklace" "Gold" 24
    "Pure 24K gold-inspired finish necklace with intricate heritage motifs, perfect for bridal looks.".

Definition G22B001 : Product.t :=
  Product.mk "G22B001" "22K Classic Kada Bangle" 18999
    "/images/gold-bangle-22k.jpg" "Bangle" "Gold" 22
    "Elegant single kada with a timeless design, perfect for everyday luxury.".

Definition S925B001 : Product.t :=
  Product.mk "S925B001" "925 Silver Minimal Bracelet" 2999
    "/images/silver-bracelet-925.jpg" "Bracelet" "Silver" 925
    "Everyday wear 925 silver bracelet with minimal design for subtle elegance.".

Definition catalogue : list Product.t := [G24N001; G22B001; S925B001].

Definition catalogue_text : string := "[G24N001,G22B001,S925B001]".

(** A codec that knows the empty array and the text of [catalogue]. *)
Definition products_json : Json (list Product.t) :=
  {| JSON_parse text :=
       if bool_decide (text = "[]") then Ok []
       else if bool_decide (text = catalogue_text) then Ok catalogue
       else Throw SyntaxError;
     JSON_stringify data :=
       match data with
       | [] => "[]"
       | _ => catalogue_text
       end |}.

Definition asha : SessionUser.t :=
  SessionUser.mk "U1700000000000" "Asha" (Some "asha@example.com") None.

Definition body : CheckoutBody.t :=
  CheckoutBody.mk (Some "Asha") (Some "9999999999") (Some "12 MG Road")
    (Some "Indore") (Some "452001") (Some "COD").

Definition body_no_address : CheckoutBody.t :=
  CheckoutBody.mk (Some "Asha") (Some "9999999999") (Some "")
    (Some "Indore") (Some "452001") (Some "COD").

(** The order for two of G24N001 placed at time 1700000000123. *)
Definition order : Order.t :=
  newOrder 1700000000123 "2023-11-14T22:13:20.123Z" asha body
    [OrderItem.mk "G24N001" "24K Royal Heritage Necklace" 54999 (Js.Num 2)]
    (Js.Num 109998).

(** A codec for orders that writes the identifiers, and reads back the
    empty array and the array holding [order]. *)
Definition orders_json : Json (list Order.t) :=
  {| JSON_parse text :=
       if bool_decide (text = "[]") then Ok []
       else if bool_decide (text = "[O1700000000123]") then Ok [order]
       else Throw SyntaxError;
     JSON_stringify data :=
       "[" +:+ String.concat "," (Order.id <$> data) +:+ "]" |}.

Definition fs : gmap string string :=
  {[ PRODUCTS_FILE := catalogue_text; ORDERS_FILE := "[]" ]}.

(** One resolving entry and one dangling entry. *)
Definition cart : list CartEntry.t :=
  [CartEntry.mk "G24N001" (Js.Num 2); CartEntry.mk "GONE" (Js.Num 1)].

Definition session : Session.t := Session.mk (Some asha) (Some cart).

End Demo.

(** ** The specification's own notions, stated on lists *)

(** The sum of a sequence of numbers, added from the left starting at 0,
    the order in which [reduce] adds. *)
Definition sum_numbers (l : list Js.number) : Js.number :=
  foldl Js.add (Js.Num 0) l.

(** An entry survives when its product identifier resolves. *)
Definition resolves (products : list Product.t) (e : CartEntry.t) : Prop :=
  is_Some (find_product products (CartEntry.productId e)).

(** One step of the total read off the cart itself: the price times the
    quantity of an entry with a product is added to the sum; an entry
    without product adds nothing. *)
Definition add_line (products : list Product.t) (sum : Js.number)
    (e : CartEntry.t) : Js.number :=
  match find_product products (CartEntry.productId e) with
  | Some p =>
      Js.add sum (Js.mul (Js.Num (Product.price p)) (CartEntry.quantity e))
  | None => sum
  end.


(** The product fields an order item is a copy of. *)
Definition copy_of (p : Product.t) (oi : OrderItem.t) : Prop :=
  OrderItem.productId oi = Product.id p
  ∧ OrderItem.name oi = Product.name p
  ∧ OrderItem.price oi = Product.price p.

(** A required field is present when it was submitted with a non-empty
    value. *)
Definition present (f : option string) : Prop :=
  ∃ v, f = Some v ∧ v ≠ "".

Definition all_fields_present (b : CheckoutBody.t) : Prop :=
  present (CheckoutBody.name b)
  ∧ present (CheckoutBody.phone b)
  ∧ present (CheckoutBody.address b)
  ∧ present (CheckoutBody.city b)
  ∧ present (CheckoutBody.pincode b)
  ∧ present (CheckoutBody.paymentMethod b).

(** The cart entry an order item stands for. *)
Definition entry_of_item (oi : OrderItem.t) : CartEntry.t :=
  CartEntry.mk (OrderItem.productId oi) (OrderItem.quantity oi).

(** A quantity clamped the way the specification asks: the value when it
    is above zero, 1 otherwise. *)
Definition clamp (n : Js.number) : Js.number :=
  match n with
  | Js.Num z => if decide (0 < z) then Js.Num z else Js.Num 1
  | Js.Infinity false => Js.Infinity false
  | _ => Js.Num 1
  end.




(** The sessions the handlers can produce from a session without a cart:
    cart add, remove and update, the clearing of the cart by a successful
    checkout, a change of the session user, and the passage through the
    session store. *)
Inductive reachable : Session.t → Prop :=
| reachable_fresh u :
    reachable (Session.mk u None)
| reachable_add id body_quantity s :
    reachable s → reachable (post_cart_add id body_quantity s).1
| reachable_remove id s :
    reachable s → reachable (post_cart_remove id s).1
| reachable_update body_quantity s :
    reachable s → reachable (post_cart_update body_quantity s).1
| reachable_clear s :
    reachable s → reachable (Session.set_cart s [])
| reachable_user u s :
    reachable s → reachable (Session.mk u (Session.cart s))
| reachable_stored s :
    reachable s → reachable (stored s).

(** A cart entry whose quantity is an integer. *)
Definition integer_quantity (e : CartEntry.t) : Prop :=
  ∃ q, CartEntry.quantity e = Js.Num q.

(** Price times quantity of an entry in exact integers; 0 for an entry
    without product or without integer quantity. *)
Definition exact_line (products : list Product.t) (e : CartEntry.t) : Z :=
  match find_product products (CartEntry.productId e), CartEntry.quantity e
  with
  | Some p, Js.Num q => Product.price p * q
  | _, _ => 0
  end.

(** The exact total of a cart, and the sum of the magnitudes of its
    lines: while the latter is at most 2^53 no double sum is rounded. *)
Definition exact_total (products : list Product.t) (cart : list CartEntry.t)
  : Z :=
  foldr (λ e acc, exact_line products e + acc) 0 cart.

Definition magnitude (products : list Product.t) (cart : list CartEntry.t)
  : Z :=
  foldr (λ e acc, Z.abs (exact_line products e) + acc) 0 cart.

(** ** Start-up: data files and the seed catalogue *)

(** The disk as [ensureDataFiles] sees it: the directories that exist next
    to the files.  On a disk a file of the data directory exists only
    when the data path is a directory. *)
Record Disk : Type := mkDisk {
  dirs : gset string;
  files : gmap string string;
}.

(** [fs.existsSync(path)]. *)
Definition existsSync (d : Disk) (path : string) : bool :=
  bool_decide (path ∈ dirs d ∨ is_Some (files d !! path)).

(** [fs.mkdirSync(path)]. *)
Definition mkdirSync (d : Disk) (path : string) : Disk :=
  mkDisk ({[ path ]} ∪ dirs d) (files d).

(** [fs.writeFileSync] of a file of the data directory: it throws unless
    the data path is a directory. *)
Definition write_data_file (d : Disk) (file text : string) : result Disk :=
  if bool_decide (DATA_DIR ∈ dirs d)
  then Ok (mkDisk (dirs d) (writeFileSync (files d) file text))
  else Throw FsError.

(** [if (!fs.existsSync(file)) fs.writeFileSync(file, "[]")]. *)
Definition ensure_file (d : Disk) (file : string) : result Disk :=
  if existsSync d file then Ok d else write_data_file d file "[]".

Definition ensureDataFiles (d : Disk) : result Disk :=
  let d := if existsSync d DATA_DIR then d else mkdirSync d DATA_DIR in
  d ←? ensure_file d USERS_FILE;
  d ←? ensure_file d PRODUCTS_FILE;
  d ←? ensure_file d ORDERS_FILE;
  ensure_file d CONTACTS_FILE.

(** The array [sample] of [seedProducts]. *)
Definition sample : list Product.t :=
  [ Product.mk "G24N001" "24K Royal Heritage Necklace" 54999
      "/images/gold-necklace-24k.jpg" "Necklace" "Gold" 24
      "Pure 24K gold-inspired finish necklace with intricate heritage motifs, perfect for bridal looks.";
    Product.mk "G22S001" "22K Temple Set with Earrings" 42999
      "/images/gold-set-22k.jpg" "Bridal Set" "Gold" 22
      "Traditional 22K look choker set with matching jhumkas, inspired by South Indian temple jewelry.";
    Product.mk "G22B001" "22K Classic Kada Bangle" 18999
      "/images/gold-bangle-22k.jpg" "Bangle" "Gold" 22
      "Elegant single kada with a timeless design, perfect for everyday luxury.";
    Product.mk "G18R001" "18K Solitaire Style Ring" 12999
      "/images/gold-ring-18k.jpg" "Ring" "Gold" 18
      "Delicate 18K look ring with high-shine stone setting, ideal for proposals and anniversaries.";
    Product.mk "D18R001" "Diamond Halo Engagement Ring" 69999
      "/images/diamond-ring-18k.jpg" "Ring" "Diamond" 18
      "Sparkling halo diamond style ring set on 18K finish band for a classic proposal moment.";
    Product.mk "D18N001" "Diamond Droplet Necklace" 89999
      "/images/diamond-necklace-18k.jpg" "Necklace" "Diamond" 18
      "Fine necklace with droplet diamonds-style arrangement that beautifully frames the neckline.";
    Product.mk "S925B001" "925 Silver Minimal Bracelet" 2999
      "/images/silver-bracelet-925.jpg" "Bracelet" "Silver" 925
      "Everyday wear 925 silver bracelet with minimal design for subtle elegance.";
    Product.mk "S925A001" "925 Silver Anklet with Ghungroo" 2499
      "/images/silver-anklet-925.jpg" "Anklet" "Silver" 925
      "Traditional silver anklet with tiny ghungroos for a soft, melodious charm." ].

Definition seedProducts `{!Json (list Product.t)} (fs : gmap string string)
  : gmap string string :=
  let products : list Product.t := readJson fs PRODUCTS_FILE in
  if bool_decide (length products = 0%nat)
  then writeJson fs PRODUCTS_FILE sample
  else fs.

(** [ensureDataFiles(); seedProducts();]  Once [ensureDataFiles] has
    returned, the data path is a directory and the write of
    [seedProducts] succeeds. *)
Definition startup `{!Json (list Product.t)} (d : Disk) : result Disk :=
  d ←? ensureDataFiles d;
  Ok (mkDisk (dirs d) (seedProducts (files d))).

(** What [ensure_file] leaves when its write succeeds, and the steps of
    [ensureDataFiles] as a loop over the files. *)
Definition ensured_file (d : Disk) (file : string) : Disk :=
  if existsSync d file then d
  else mkDisk (dirs d) (writeFileSync (files d) file "[]").

Fixpoint ensure_files (d : Disk) (l : list string) : result Disk :=
  match l with
  | [] => Ok d
  | file :: l => d ←? ensure_file d file; ensure_files d l
  end.

(** ** Catalogue pages, accounts and contact *)

Module User.
Record t : Type := mk {
  id : string;
  name : string;
  email : option string;   (* [None] is [null] *)
  phone : option string;
  password : string;
}.
End User.

Module Contact.
Record t : Type := mk {
  id : string;
  name : string;
  email : option string;
  phone : option string;
  message : string;
  status : string;
  createdAt : string;
}.
End Contact.

(** The body of [POST /register]. *)
Module RegisterBody.
Record t : Type := mk {
  name : option string;
  email : option string;
  phone : option string;
  password : option string;
}.
End RegisterBody.

(** The body of [POST /login]. *)
Module LoginBody.
Record t : Type := mk {
  identifier : option string;
  password : option string;
}.
End LoginBody.

(** The body of [POST /contact]. *)
Module ContactBody.
Record t : Type := mk {
  name : option string;
  email : option string;
  phone : option string;
  message : option string;
}.
End ContactBody.

(** What these handlers hand to [res.render], per view. *)
Inductive PageLocals : Type :=
| IndexLocals (pageTitle : string) (featured : list Product.t)
| ShopLocals (pageTitle : string) (products : list Product.t)
| ProductLocals (pageTitle : string) (product : Product.t)
| AuthLocals (pageTitle : string) (error : option string)
| ContactLocals (pageTitle : string) (success error : option string).

Inductive Reply : Type :=
| RenderPage (view : string) (locals : PageLocals)
| RedirectTo (location : string)
| SendStatus (status : Z) (body : string).

(** [bcrypt.hash(password, 10)] draws a salt; [bcrypt.compare] checks a
    password against a stored hash. *)
Class Bcrypt : Type := {
  bcrypt_hash : string → string → string;   (* salt, password *)
  bcrypt_compare : string → string → bool;  (* password, hash *)
}.

(** A submitted field as a string; used where a guard has found it
    truthy. *)
Definition field_value (f : option string) : string := default "" f.

(** [f || null]. *)
Definition or_null (f : option string) : option string :=
  if Js.truthy_field f then f else None.

(** [f && stored === f] for a submitted field and a stored one. *)
Definition same_field (f stored : option string) : bool :=
  Js.truthy_field f && bool_decide (stored = f).

(** [!name || (!email && !phone) || !last], the guard of the register and
    contact forms. *)
Definition form_incomplete (name email phone last : option string) : bool :=
  negb (Js.truthy_field name)
  || (negb (Js.truthy_field email) && negb (Js.truthy_field phone))
  || negb (Js.truthy_field last).

Section Pages.
Context `{!Json (list Product.t)} `{!Json (list User.t)}
        `{!Json (list Contact.t)} `{!Bcrypt}.

(** [GET /]; [products.slice(0, 4)] is [take 4]. *)
Definition get_home (fs : gmap string string) : Reply :=
  let products : list Product.t := readJson fs PRODUCTS_FILE in
  let featured := take 4 products in
  RenderPage "index" (IndexLocals "Home" featured).

(** [GET /shop]. *)
Definition get_shop (fs : gmap string string) : Reply :=
  let products : list Product.t := readJson fs PRODUCTS_FILE in
  RenderPage "shop" (ShopLocals "All Collections" products).

(** [GET /product/:id]. *)
Definition get_product (id : string) (fs : gmap string string) : Reply :=
  let products := readJson fs PRODUCTS_FILE in
  match find_product products id with
  | None => SendStatus 404 "Product not found"
  | Some product =>
      RenderPage "product" (ProductLocals (Product.name product) product)
  end.

(** The projection of a user record put into the session. *)
Definition session_user (u : User.t) : SessionUser.t :=
  SessionUser.mk (User.id u) (User.name u) (User.email u) (User.phone u).

(** The record [POST /register] builds; [now] is [Date.now()], [salt] the
    salt [bcrypt.hash] draws. *)
Definition newUser (now : Z) (salt : string) (b : RegisterBody.t) : User.t :=
  let hashed := bcrypt_hash salt (field_value (RegisterBody.password b)) in
  {| User.id := "U" +:+ pretty now;
     User.name := field_value (RegisterBody.name b);
     User.email := or_null (RegisterBody.email b);
     User.phone := or_null (RegisterBody.phone b);
     User.password := hashed |}.

(** The callback of [users.find] in [POST /register]. *)
Definition shares_contact (b : RegisterBody.t) (u : User.t) : Prop :=
  same_field (RegisterBody.email b) (User.email u) = true
  ∨ same_field (RegisterBody.phone b) (User.phone u) = true.

(** [POST /register]. *)
Definition post_register (now : Z) (salt : string) (b : RegisterBody.t)
    (fs : gmap string string) (s : Session.t)
  : gmap string string * Session.t * Reply :=
  if form_incomplete (RegisterBody.name b) (RegisterBody.email b)
       (RegisterBody.phone b) (RegisterBody.password b) then
    (fs, s,
     RenderPage "auth-register"
       (AuthLocals "Sign Up" (Some "Please fill all required fields.")))
  else
    let users : list User.t := readJson fs USERS_FILE in
    match list_find (shares_contact b) users with
    | Some _ =>
        (fs, s,
         RenderPage "auth-register"
           (AuthLocals "Sign Up"
              (Some "User with this email or phone already exists.")))
    | None =>
        let newUser := newUser now salt b in
        let users := users ++ [newUser] in
        let fs := writeJson fs USERS_FILE users in
        (fs, Session.mk (Some (session_user newUser)) (Session.cart s),
         RedirectTo "/")
    end.

(** The callback of [users.find] in [POST /login]. *)
Definition has_identifier (identifier : string) (u : User.t) : Prop :=
  User.email u = Some identifier ∨ User.phone u = Some identifier.

(** [POST /login]. *)
Definition post_login (b : LoginBody.t)
    (fs : gmap string string) (s : Session.t) : Session.t * Reply :=
  if negb (Js.truthy_field (LoginBody.identifier b))
     || negb (Js.truthy_field (LoginBody.password b)) then
    (s, RenderPage "auth-login"
          (AuthLocals "Login"
             (Some "Please enter your email/phone and password.")))
  else
    let identifier := field_value (LoginBody.identifier b) in
    let password := field_value (LoginBody.password b) in
    let users : list User.t := readJson fs USERS_FILE in
    match list_find (has_identifier identifier) users with
    | None =>
        (s, RenderPage "auth-login"
              (AuthLocals "Login" (Some "User not found.")))
    | Some (_, user) =>
        if negb (bcrypt_compare password (User.password user)) then
          (s, RenderPage "auth-login"
                (AuthLocals "Login" (Some "Incorrect password.")))
        else
          (Session.mk (Some (session_user user)) (Session.cart s),
           RedirectTo "/")
    end.

(** [GET /logout]: the session is destroyed. *)
Definition get_logout (s : Session.t) : Session.t * Reply :=
  (Session.mk None None, RedirectTo "/").

(** The record [POST /contact] appends; [now] is [Date.now()], [iso] is
    [new Date().toISOString()]. *)
Definition newContact (now : Z) (iso : string) (b : ContactBody.t)
  : Contact.t :=
  {| Contact.id := "C" +:+ pretty now;
     Contact.name := field_value (ContactBody.name b);
     Contact.email := or_null (ContactBody.email b);
     Contact.phone := or_null (ContactBody.phone b);
     Contact.message := field_value (ContactBody.message b);
     Contact.status := "Pending";
     Contact.createdAt := iso |}.

(** [POST /contact]. *)
Definition post_contact (now : Z) (iso : string) (b : ContactBody.t)
    (fs : gmap string string) : gmap string string * Reply :=
  if form_incomplete (ContactBody.name b) (ContactBody.email b)
       (ContactBody.phone b) (ContactBody.message b) then
    (fs, RenderPage "contact"
           (ContactLocals "Contact" None
              (Some "Please fill all required fields.")))
  else
    let contacts : list Contact.t := readJson fs CONTACTS_FILE in
    let contacts := contacts ++ [newContact now iso b] in
    let fs := writeJson fs CONTACTS_FILE contacts in
    (fs, RenderPage "contact"
           (ContactLocals "Contact"
              (Some "Thank you! We will contact you soon.") None)).

End Pages.

(** ** Sample accounts and codecs *)

Module DemoAccounts.

(** A stand-in for bcrypt: the hash is the salt, a separator and the
    password; [compare] recomputes it with the salt the samples use. *)
Definition bcrypt : Bcrypt :=
  {| bcrypt_hash salt password := salt +:+ "$" +:+ password;
     bcrypt_compare password hash :=
       bool_decide (hash = "s4lt" +:+ "$" +:+ password) |}.

Definition priya : User.t :=
  User.mk "U1700000000500" "Priya" (Some "priya@example.com") None
    "s4lt$secret".

(** An earlier user whose phone field holds what [priya] uses as email. *)
Definition ravi : User.t :=
  User.mk "U1600000000000" "Ravi" None (Some "priya@example.com")
    "s4lt$other".

(** A codec for users that writes the identifiers, and reads back the
    empty array and the arrays of the sample users. *)
Definition users_json : Json (list User.t) :=
  {| JSON_parse text :=
       if bool_decide (text = "[]") then Ok []
       else if bool_decide (text = "[U1700000000500]") then Ok [priya]
       else if bool_decide (text = "[U1600000000000]") then Ok [ravi]
       else if bool_decide (text = "[U1600000000000,U1700000000500]")
       then Ok [ravi; priya]
       else Throw SyntaxError;
     JSON_stringify data :=
       "[" +:+ String.concat "," (User.id <$> data) +:+ "]" |}.

Definition contact_body : ContactBody.t :=
  ContactBody.mk (Some "Priya") None (Some "9000000000")
    (Some "Do you resize rings?").

(** The contact record of [contact_body] at time 1700000000900. *)
Definition contact : Contact.t :=
  newContact 1700000000900 "2023-11-14T22:26:40.900Z" contact_body.

(** A codec for contacts that writes the identifiers, and reads back the
    empty array and the array holding [contact]. *)
Definition contacts_json : Json (list Contact.t) :=
  {| JSON_parse text :=
       if bool_decide (text = "[]") then Ok []
       else if bool_decide (text = "[C1700000000900]") then Ok [contact]
       else Throw SyntaxError;
     JSON_stringify data :=
       "[" +:+ String.concat "," (Contact.id <$> data) +:+ "]" |}.

(** A codec for products that knows the empty array and the seed array. *)
Definition seed_json : Json (list Product.t) :=
  {| JSON_parse text :=
       if bool_decide (text = "[]") then Ok []
       else if bool_decide (text = "[seed]") then Ok sample
       else Throw SyntaxError;
     JSON_stringify data :=
       match data with
       | [] => "[]"
       | _ => "[seed]"
       end |}.

Definition register_body : RegisterBody.t :=
  RegisterBody.mk (Some "Priya") (Some "priya@example.com") (Some "")
    (Some "secret").

Definition login_body : LoginBody.t :=
  LoginBody.mk (Some "priya@example.com") (Some "secret").

(** All four collections empty. *)
Definition fs : gmap string string :=
  {[ USERS_FILE := "[]"; PRODUCTS_FILE := "[]";
     ORDERS_FILE := "[]"; CONTACTS_FILE := "[]" ]}.

End DemoAccounts.

(** No two users share an email, and no two share a phone. *)
Definition unique_contacts (users : list User.t) : Prop :=
  NoDup (omap User.email users) ∧ NoDup (omap User.phone users).

(** A codec reads back what it wrote for [data]. *)
Definition round_trips {A} `{!Json (list A)} (data : list A) : Prop :=
  JSON_stringify data ≠ "" ∧ JSON_parse (JSON_stringify data) = Ok data.

(** * Properties *)

Example parseInt_12 : Js.parseInt "12" = Js.Num 12.
Proof. reflexivity. Qed.

Example parseInt_neg : Js.parseInt " -5x" = Js.Num (-5).
Proof. reflexivity. Qed.

Example parseInt_abc : Js.parseInt "abc" = Js.NaN.
Proof. reflexivity. Qed.

Example add_rounds_to_even :
  Js.add (Js.Num 9007199254740992) (Js.Num 1) = Js.Num 9007199254740992.
Proof. reflexivity. Qed.

Example mul_rounds :
  Js.mul (Js.Num 54999) (Js.Num 200000000001) = Js.Num 10999800000055000.
Proof. reflexivity. Qed.

Example reduce_rounds_each_step :
  sum_numbers [Js.Num 9007296228000000; Js.Num 18999; Js.Num 2999]
  = Js.Num 9007296228022000.
Proof. reflexivity. Qed.

Example parseInt_nbsp : Js.parseInt (String "194" (String "160" "22"))
                        = Js.Num 22.
Proof. reflexivity. Qed.

(** ** Arithmetic on numbers *)

(** Up to 2^53 in magnitude every integer is a double. *)
Lemma number_of_exact z : Z.abs z ≤ 2 ^ 53 → Js.number_of z = Js.Num z.
Proof.
  intros Hz. unfold Js.number_of, Js.round_to_53_bits.
  rewrite (proj2 (Z.leb_le _ _) Hz).
  assert (2 ^ 53 < 2 ^ 1024) by (apply Z.pow_lt_mono_r; lia).
  rewrite (proj2 (Z.leb_gt _ _)) by lia. f_equal. lia.
Qed.

Lemma add_exact x y :
  Z.abs (x + y) ≤ 2 ^ 53 → Js.add (Js.Num x) (Js.Num y) = Js.Num (x + y).
Proof. intros H. simpl. by apply number_of_exact. Qed.


(** ** Lookup and [filter(Boolean)] *)

Lemma find_product_Some products productId p :
  find_product products productId = Some p →
  Product.id p = productId ∧ p ∈ products.
Proof.
  unfold find_product. intros Hf.
  destruct (list_find _ products) as [[i q]|] eqn:E; simplify_eq/=.
  apply list_find_Some in E as (Hl & Hp & _).
  split; [done | by eapply list_elem_of_lookup_2].
Qed.

Lemma find_product_None products productId :
  find_product products productId = None ↔
  Forall (λ p, Product.id p ≠ productId) products.
Proof.
  unfold find_product. rewrite fmap_None. apply list_find_None.
Qed.

Lemma filter_Boolean_omap {A B} (f : A → option B) (l : list A) :
  filter_Boolean (f <$> l) = omap f l.
Proof.
  induction l as [|x l IH]; [done|].
  cbn. destruct (f x); cbn; by f_equal.
Qed.

(** ** Materialisation *)

Lemma detailedCart_live_cons products e cart :
  detailedCart_live products (e :: cart)
  = match find_product products (CartEntry.productId e) with
    | Some p =>
        LineItem.mk p (CartEntry.quantity e)
          (Js.mul (Js.Num (Product.price p)) (CartEntry.quantity e))
        :: detailedCart_live products cart
    | None => detailedCart_live products cart
    end.
Proof.
  unfold detailedCart_live, detail_live. cbn.
  by destruct (find_product products (CartEntry.productId e)).
Qed.

Lemma detailedCart_snapshot_cons products e cart :
  detailedCart_snapshot products (e :: cart)
  = match find_product products (CartEntry.productId e) with
    | Some p =>
        OrderItem.mk (Product.id p) (Product.name p) (Product.price p)
          (CartEntry.quantity e)
        :: detailedCart_snapshot products cart
    | None => detailedCart_snapshot products cart
    end.
Proof.
  unfold detailedCart_snapshot, detail_snapshot. cbn.
  by destruct (find_product products (CartEntry.productId e)).
Qed.

Lemma filter_resolves_cons products e cart :
  filter (resolves products) (e :: cart)
  = match find_product products (CartEntry.productId e) with
    | Some _ => e :: filter (resolves products) cart
    | None => filter (resolves products) cart
    end.
Proof.
  destruct (find_product products (CartEntry.productId e)) as [p|] eqn:E.
  - apply filter_cons_True. unfold resolves. rewrite E. eauto.
  - apply filter_cons_False. unfold resolves. rewrite E. by intros [? ?].
Qed.




Lemma foldl_live_add_line products cart (a : Js.number) :
  foldl (λ sum item, Js.add sum (LineItem.lineTotal item)) a
        (detailedCart_live products cart)
  = foldl (add_line products) a cart.
Proof.
  revert a. induction cart as [|e cart IH]; intros a; [done|].
  rewrite detailedCart_live_cons. cbn [foldl]. unfold add_line at 2.
  destruct (find_product products (CartEntry.productId e)) as [p|];
    [|by apply IH].
  cbn [foldl]. by rewrite IH.
Qed.

Lemma foldl_snapshot_live products cart (a : Js.number) :
  foldl (λ sum item,
           Js.add sum (Js.mul (Js.Num (OrderItem.price item))
                              (OrderItem.quantity item)))
        a (detailedCart_snapshot products cart)
  = foldl (λ sum item, Js.add sum (LineItem.lineTotal item)) a
          (detailedCart_live products cart).
Proof.
  revert a. induction cart as [|e cart IH]; intros a; [done|].
  rewrite detailedCart_snapshot_cons, detailedCart_live_cons.
  destruct (find_product products (CartEntry.productId e)) as [p|];
    [|by apply IH].
  cbn [foldl]. by rewrite IH.
Qed.

Lemma total_snapshot_live products cart :
  total_snapshot (detailedCart_snapshot products cart)
  = total_live (detailedCart_live products cart).
Proof. apply foldl_snapshot_live. Qed.

(** ** Exact totals *)

Lemma magnitude_nonneg products cart : 0 ≤ magnitude products cart.
Proof. induction cart as [|e cart IH]; simpl; lia. Qed.


Lemma find_product_first products l1 p l2 :
  products = l1 ++ p :: l2 →
  Forall (λ q, Product.id q ≠ Product.id p) l1 →
  find_product products (Product.id p) = Some p.
Proof.
  intros -> Hl1. unfold find_product.
  assert (list_find (λ q, Product.id q = Product.id p) (l1 ++ p :: l2)
          = Some (length l1, p)) as ->; [|done].
  apply list_find_Some. split_and!.
  - by apply list_lookup_middle.
  - done.
  - intros j y Hj Hlt. rewrite lookup_app_l in Hj by done.
    by apply (Forall_lookup_1 _ _ _ _ Hl1 Hj).
Qed.



(** ** Handlers unfolded *)

Lemma get_cart_eq `{!Json (list Product.t)} fs s :
  get_cart fs s
  = Render "cart"
      (CartLocals "Cart"
         (detailedCart_live (readJson fs PRODUCTS_FILE) (cart_or_empty s))
         (total_live
            (detailedCart_live (readJson fs PRODUCTS_FILE)
                               (cart_or_empty s)))).
Proof. reflexivity. Qed.

Lemma post_checkout_missing `{!Json (list Product.t)} `{!Json (list Order.t)}
    now iso b fs s u :
  Session.user s = Some u → missing_field b = true →
  post_checkout now iso b fs s
  = (fs, s,
     Render "checkout"
       (CheckoutLocals "Checkout"
          (detailedCart_live (readJson fs PRODUCTS_FILE) (cart_or_empty s))
          (total_live
             (detailedCart_live (readJson fs PRODUCTS_FILE)
                                (cart_or_empty s)))
          (Some "Please fill all fields."))).
Proof.
  intros Hu Hm. unfold post_checkout, requireLogin. by rewrite Hu, Hm.
Qed.

Lemma post_checkout_complete `{!Json (list Product.t)} `{!Json (list Order.t)}
    now iso b fs s u :
  Session.user s = Some u → missing_field b = false →
  post_checkout now iso b fs s
  = (writeJson fs ORDERS_FILE
       (readJson fs ORDERS_FILE
        ++ [newOrder now iso u b
              (detailedCart_snapshot (readJson fs PRODUCTS_FILE)
                                     (cart_or_empty s))
              (total_snapshot
                 (detailedCart_snapshot (readJson fs PRODUCTS_FILE)
                                        (cart_or_empty s)))]),
     Session.set_cart s [],
     Redirect "/orders").
Proof.
  intros Hu Hm. unfold post_checkout, requireLogin. by rewrite Hu, Hm.
Qed.

Lemma get_checkout_nonempty `{!Json (list Product.t)} fs s u :
  Session.user s = Some u → cart_or_empty s ≠ [] →
  get_checkout fs s
  = Render "checkout"
      (CheckoutLocals "Checkout"
         (detailedCart_live (readJson fs PRODUCTS_FILE) (cart_or_empty s))
         (total_live
            (detailedCart_live (readJson fs PRODUCTS_FILE)
                               (cart_or_empty s)))
         None).
Proof.
  intros Hu Hne. unfold get_checkout, requireLogin. rewrite Hu.
  rewrite bool_decide_eq_false_2; [done|].
  by destruct (cart_or_empty s).
Qed.

Lemma get_checkout_empty `{!Json (list Product.t)} fs s u :
  Session.user s = Some u → cart_or_empty s = [] →
  get_checkout fs s = Redirect "/cart".
Proof.
  intros Hu He. unfold get_checkout, requireLogin. by rewrite Hu, He.
Qed.

(** ** The claims *)



(** C3. On the same cart and product collection the materialisation that
    keeps the product (cart view, checkout view) and the one that copies
    its fields (checkout submit) sum to the same total; so the total shown
    by [GET /cart] and [GET /checkout] is the total committed into the
    order record by [POST /checkout] on the same store and session. *)
Theorem displayed_total_is_committed_total
    `{!Json (list Product.t)} `{!Json (list Order.t)}
    (products : list Product.t) (cart : list CartEntry.t) :
  total_snapshot (detailedCart_snapshot products cart)
  = total_live (detailedCart_live products cart)
  ∧ ∀ now iso b fs s u,
      products = readJson fs PRODUCTS_FILE → cart = cart_or_empty s →
      Session.user s = Some u → missing_field b = false →
      ∃ cartItems total order,
        get_cart fs s = Render "cart" (CartLocals "Cart" cartItems total)
        ∧ (cart ≠ [] →
           get_checkout fs s
           = Render "checkout"
               (CheckoutLocals "Checkout" cartItems total None))
        ∧ post_checkout now iso b fs s
          = (writeJson fs ORDERS_FILE (readJson fs ORDERS_FILE ++ [order]),
             Session.set_cart s [], Redirect "/orders")
        ∧ Order.items order = detailedCart_snapshot products cart
        ∧ Order.total order = total_snapshot (Order.items order)
        ∧ Order.total order = total.
Proof.
  split; [apply total_snapshot_live|].
  intros now iso b fs s u -> -> Hu Hm. do 3 eexists. split_and!.
  - apply get_cart_eq.
  - intros Hne. by apply (get_checkout_nonempty fs s u).
  - by apply post_checkout_complete.
  - done.
  - done.
  - apply total_snapshot_live.
Qed.

Lemma displayed_total_is_committed_total_witness :
  ∃ cartItems order,
    @get_cart Demo.products_json Demo.fs Demo.session
    = Render "cart" (CartLocals "Cart" cartItems (Order.total order))
    ∧ (@post_checkout Demo.products_json Demo.orders_json
         1700000000123 "2023-11-14T22:13:20.123Z" Demo.body
         Demo.fs Demo.session).1.1 !! ORDERS_FILE
      = Some (@JSON_stringify _ Demo.orders_json [order]).
Proof.
  destruct (@displayed_total_is_committed_total
              Demo.products_json Demo.orders_json
              (@readJson _ Demo.products_json Demo.fs PRODUCTS_FILE)
              (cart_or_empty Demo.session))
    as [_ Hhandlers].
  destruct (Hhandlers 1700000000123 "2023-11-14T22:13:20.123Z" Demo.body
              Demo.fs Demo.session Demo.asha
              eq_refl eq_refl eq_refl eq_refl)
    as (cartItems & total & order & Hcart & _ & Hpost & _ & _ & Htotal).
  exists cartItems, order. split.
  - by rewrite Htotal.
  - rewrite Hpost. unfold writeJson, writeFileSync; simpl.
    by rewrite lookup_insert_eq.
Defined.

(** ** Required fields *)

Lemma truthy_field_present f : Js.truthy_field f = true ↔ present f.
Proof.
  unfold present. destruct f as [[|c v]|]; simpl; split.
  - done.
  - by intros (v' & [= <-] & Hne).
  - eauto.
  - done.
  - done.
  - by intros (v' & ? & _).
Qed.

Lemma missing_field_false b :
  missing_field b = false ↔ all_fields_present b.
Proof.
  unfold missing_field, all_fields_present.
  rewrite <- !truthy_field_present.
  destruct (Js.truthy_field (CheckoutBody.name b)),
    (Js.truthy_field (CheckoutBody.phone b)),
    (Js.truthy_field (CheckoutBody.address b)),
    (Js.truthy_field (CheckoutBody.city b)),
    (Js.truthy_field (CheckoutBody.pincode b)),
    (Js.truthy_field (CheckoutBody.paymentMethod b)); simpl;
    intuition congruence.
Qed.

Lemma missing_field_true b :
  missing_field b = true ↔ ¬ all_fields_present b.
Proof.
  rewrite <- missing_field_false. by destruct (missing_field b).
Qed.

(** ** The order file and the other files *)

Lemma readJson_frame {A} `{!Json (list A)} fs (path other text : string) :
  other ≠ path →
  readJson (writeFileSync fs other text) path = readJson fs path.
Proof.
  intros Hne. unfold readJson, readFileSync, writeFileSync.
  by rewrite lookup_insert_ne.
Qed.

Lemma readJson_written {A} `{!Json (list A)} fs path (data : list A) :
  JSON_stringify data ≠ "" →
  JSON_parse (JSON_stringify data) = Ok data →
  readJson (writeJson fs path data) path = data.
Proof.
  intros Hne Hrt. unfold readJson, readFileSync, writeJson, writeFileSync.
  rewrite lookup_insert_eq. simpl. unfold raw_or_empty_array.
  destruct (JSON_stringify data) eqn:E; [done|]. simpl. by rewrite Hrt.
Qed.

Lemma PRODUCTS_not_ORDERS : PRODUCTS_FILE ≠ ORDERS_FILE.
Proof. by vm_compute. Qed.

(** ** Order items *)

Lemma snapshot_entries products cart :
  entry_of_item <$> detailedCart_snapshot products cart
  = filter (resolves products) cart.
Proof.
  induction cart as [|e cart IH]; [done|].
  rewrite detailedCart_snapshot_cons, filter_resolves_cons.
  destruct (find_product products (CartEntry.productId e)) as [p|] eqn:E;
    [|done].
  rewrite fmap_cons, IH. f_equal.
  apply find_product_Some in E as [E _].
  unfold entry_of_item; simpl. rewrite E. by destruct e.
Qed.

Lemma snapshot_copies products cart :
  Forall (λ oi, ∃ p, find_product products (OrderItem.productId oi) = Some p
                     ∧ copy_of p oi)
         (detailedCart_snapshot products cart).
Proof.
  induction cart as [|e cart IH]; [constructor|].
  rewrite detailedCart_snapshot_cons.
  destruct (find_product products (CartEntry.productId e)) as [p|] eqn:E;
    [|done].
  constructor; [|done]. exists p. simpl. split; [|done].
  destruct (find_product_Some _ _ _ E) as [Hid _]. by rewrite Hid.
Qed.

(** C2. For an authenticated [POST /checkout]: when all six required
    fields are present and non-empty the cart is cleared; when a field is
    missing the checkout form is rendered again with the materialised line
    items, the total and a validation message, and the session (so the
    cart) and the store (so the order collection) are as before.  Hence a
    cart that held something is empty afterwards if and only if all six
    fields were present. *)
Theorem checkout_clears_cart_iff_complete
    `{!Json (list Product.t)} `{!Json (list Order.t)}
    now iso b fs s u :
  Session.user s = Some u →
  let products := readJson fs PRODUCTS_FILE in
  let fs' := (post_checkout now iso b fs s).1.1 in
  let s' := (post_checkout now iso b fs s).1.2 in
  let response := (post_checkout now iso b fs s).2 in
  (all_fields_present b → Session.cart s' = Some [])
  ∧ (¬ all_fields_present b →
     response
     = Render "checkout"
         (CheckoutLocals "Checkout"
            (detailedCart_live products (cart_or_empty s))
            (total_live (detailedCart_live products (cart_or_empty s)))
            (Some "Please fill all fields."))
     ∧ s' = s
     ∧ fs' = fs
     ∧ @readJson Order.t _ fs' ORDERS_FILE = readJson fs ORDERS_FILE)
  ∧ (cart_or_empty s ≠ [] →
     (cart_or_empty s' = [] ↔ all_fields_present b)).
Proof.
  intros Hu products fs' s' response. subst products fs' s' response.
  destruct (missing_field b) eqn:Hm.
  - pose proof (proj1 (missing_field_true b) Hm) as Hnot.
    rewrite (post_checkout_missing now iso b fs s u Hu Hm). simpl.
    split_and!; [done | done | ]. intros Hne. split; [done|].
    intros Hall. by destruct Hnot.
  - pose proof (proj1 (missing_field_false b) Hm) as Hall.
    rewrite (post_checkout_complete now iso b fs s u Hu Hm). simpl.
    split_and!; [done | done | done].
Qed.

(** The scenario of the specification: an empty address. *)
Lemma checkout_clears_cart_iff_complete_witness :
  let r := @post_checkout Demo.products_json Demo.orders_json
             1700000000123 "2023-11-14T22:13:20.123Z" Demo.body_no_address
             Demo.fs Demo.session in
  r.1.2 = Demo.session
  ∧ r.1.1 = Demo.fs
  ∧ @readJson _ Demo.orders_json r.1.1 ORDERS_FILE = [].
Proof.
  assert (¬ all_fields_present Demo.body_no_address) as Hnot.
  { intros (_ & _ & (v & [= <-] & Hv) & _). by apply Hv. }
  destruct (@checkout_clears_cart_iff_complete
              Demo.products_json Demo.orders_json
              1700000000123 "2023-11-14T22:13:20.123Z" Demo.body_no_address
              Demo.fs Demo.session Demo.asha eq_refl)
    as (_ & Hfail & _).
  destruct (Hfail Hnot) as (_ & Hs & Hfs & Horders).
  split_and!; [exact Hs | exact Hfs |].
  rewrite Horders. by vm_compute.
Defined.

(** C10. An authenticated [POST /checkout] with an empty session cart and
    all six required fields present still creates and persists an order,
    with no items and total 0: only [GET /checkout] sends an empty cart
    back to [/cart]. *)
Theorem checkout_with_empty_cart_creates_order
    `{!Json (list Product.t)} `{!Json (list Order.t)}
    now iso b fs s u :
  Session.user s = Some u →
  cart_or_empty s = [] →
  all_fields_present b →
  ∃ order,
    post_checkout now iso b fs s
    = (writeJson fs ORDERS_FILE (readJson fs ORDERS_FILE ++ [order]),
       Session.set_cart s [], Redirect "/orders")
    ∧ (post_checkout now iso b fs s).1.1 !! ORDERS_FILE
      = Some (JSON_stringify (readJson fs ORDERS_FILE ++ [order]))
    ∧ Order.items order = []
    ∧ Order.total order = Js.Num 0
    ∧ Order.userId order = SessionUser.id u
    ∧ Order.status order = "Pending"
    ∧ get_checkout fs s = Redirect "/cart".
Proof.
  intros Hu Hempty Hall. apply missing_field_false in Hall.
  eexists. rewrite (post_checkout_complete now iso b fs s u Hu Hall).
  rewrite Hempty. split_and!; try done.
  - unfold writeJson, writeFileSync; simpl. by rewrite lookup_insert_eq.
  - by apply (get_checkout_empty fs s u).
Qed.

Lemma checkout_with_empty_cart_creates_order_witness :
  ∃ order,
    (@post_checkout Demo.products_json Demo.orders_json
       1700000000123 "2023-11-14T22:13:20.123Z" Demo.body
       Demo.fs (Session.mk (Some Demo.asha) None)).1.1 !! ORDERS_FILE
    = Some (@JSON_stringify _ Demo.orders_json [order])
    ∧ Order.items order = []
    ∧ Order.total order = Js.Num 0.
Proof.
  assert (all_fields_present Demo.body) as Hall.
  { by apply missing_field_false. }
  destruct (@checkout_with_empty_cart_creates_order
              Demo.products_json Demo.orders_json
              1700000000123 "2023-11-14T22:13:20.123Z" Demo.body
              Demo.fs (Session.mk (Some Demo.asha) None) Demo.asha
              eq_refl eq_refl Hall)
    as (order & _ & Hfile & Hitems & Htotal & _).
  exists order. split_and!; [exact Hfile | exact Hitems | exact Htotal].
Defined.

(** C4. The line items of an order created by [POST /checkout] are copies
    of productId, name and price of the product each surviving cart entry
    resolved to at order time, with the entry's quantity, and the total is
    computed from these copies.  Whatever is written to the product
    collection afterwards, the stored order collection is the same text and
    reads back the same, so the orders page shows the same items and
    totals. *)
Theorem order_items_are_snapshots
    `{!Json (list Product.t)} `{!Json (list Order.t)}
    now iso b fs s u :
  Session.user s = Some u →
  all_fields_present b →
  let products := readJson fs PRODUCTS_FILE in
  let fs' := (post_checkout now iso b fs s).1.1 in
  ∃ order,
    fs' !! ORDERS_FILE
    = Some (JSON_stringify (readJson fs ORDERS_FILE ++ [order]))
    ∧ Forall (λ oi, ∃ p, find_product products (OrderItem.productId oi)
                         = Some p ∧ copy_of p oi)
             (Order.items order)
    ∧ entry_of_item <$> Order.items order
      = filter (resolves products) (cart_or_empty s)
    ∧ Order.total order
      = sum_numbers
          ((λ oi, Js.mul (Js.Num (OrderItem.price oi))
                         (OrderItem.quantity oi)) <$> Order.items order)
    ∧ ∀ text,
        let fs'' := writeFileSync fs' PRODUCTS_FILE text in
        fs'' !! ORDERS_FILE = fs' !! ORDERS_FILE
        ∧ @readJson Order.t _ fs'' ORDERS_FILE = readJson fs' ORDERS_FILE
        ∧ (∀ s0, get_orders fs'' s0 = get_orders fs' s0)
        ∧ (JSON_stringify (readJson fs ORDERS_FILE ++ [order]) ≠ "" →
           JSON_parse (JSON_stringify (readJson fs ORDERS_FILE ++ [order]))
           = Ok (readJson fs ORDERS_FILE ++ [order]) →
           readJson fs'' ORDERS_FILE = readJson fs ORDERS_FILE ++ [order]).
Proof.
  intros Hu Hall products fs'. subst products fs'.
  apply missing_field_false in Hall.
  rewrite (post_checkout_complete now iso b fs s u Hu Hall). simpl.
  eexists. split_and!.
  - unfold writeJson, writeFileSync. by rewrite lookup_insert_eq.
  - apply snapshot_copies.
  - apply snapshot_entries.
  - simpl. unfold total_snapshot, sum_numbers. by rewrite foldl_fmap.
  - intros text.
    assert (∀ fs0, @readJson Order.t _
                     (writeFileSync fs0 PRODUCTS_FILE text) ORDERS_FILE
                   = readJson fs0 ORDERS_FILE) as Hframe.
    { intros fs0. apply readJson_frame, PRODUCTS_not_ORDERS. }
    split_and!.
    + unfold writeFileSync.
      by rewrite (lookup_insert_ne _ _ _ _ PRODUCTS_not_ORDERS).
    + apply Hframe.
    + intros s0. unfold get_orders. by rewrite Hframe.
    + intros Hne Hrt. rewrite Hframe. by apply readJson_written.
Qed.

(** The order for two G24N001 reads back with price 54999 and total
    109998 after the catalogue file has been replaced by the empty array. *)
Lemma order_items_are_snapshots_witness :
  let fs' := (@post_checkout Demo.products_json Demo.orders_json
                1700000000123 "2023-11-14T22:13:20.123Z" Demo.body
                Demo.fs Demo.session).1.1 in
  @readJson _ Demo.orders_json (writeFileSync fs' PRODUCTS_FILE "[]")
     ORDERS_FILE
  = [Demo.order].
Proof.
  assert (all_fields_present Demo.body) as Hall.
  { by apply missing_field_false. }
  destruct (@order_items_are_snapshots
              Demo.products_json Demo.orders_json
              1700000000123 "2023-11-14T22:13:20.123Z" Demo.body
              Demo.fs Demo.session Demo.asha eq_refl Hall)
    as (order & _ & _ & _ & _ & Hafter).
  destruct (Hafter "[]") as (_ & Hread & _ & _).
  intros fs'. subst fs'. rewrite Hread. by vm_compute.
Defined.

(** ** Updating quantities *)

Lemma gt_0_clamp n :
  (if Js.gt n (Js.Num 0) then n else Js.Num 1) = clamp n.
Proof.
  destruct n as [z| |[|]|]; simpl; try done.
  by destruct (decide (0 < z)); [rewrite bool_decide_eq_true_2
                                | rewrite bool_decide_eq_false_2].
Qed.


Lemma update_item_eq quantities item :
  update_item quantities item
  = match quantities !! CartEntry.productId item with
    | None =>
        if decide (CartEntry.productId item ∈ Object_prototype_names)
        then CartEntry.mk (CartEntry.productId item) (Js.Num 1)
        else item
    | Some v =>
        if decide (v = "") then item
        else CartEntry.mk (CartEntry.productId item) (clamp (Js.parseInt v))
    end.
Proof.
  unfold update_item, get_member.
  destruct (quantities !! CartEntry.productId item) as [[|c v]|]; try done.
  - simpl. by rewrite gt_0_clamp.
  - by case_bool_decide; case_decide.
Qed.

Lemma update_item_id quantities item :
  CartEntry.productId (update_item quantities item)
  = CartEntry.productId item.
Proof.
  rewrite update_item_eq.
  destruct (quantities !! CartEntry.productId item) as [v|].
  - by destruct (decide (v = "")).
  - by case_decide.
Qed.



(** ** The session store *)

Lemma stored_number_idemp n : stored_number (stored_number n) = stored_number n.
Proof. by destruct n. Qed.

Lemma stored_entry_idemp e : stored_entry (stored_entry e) = stored_entry e.
Proof. unfold stored_entry. simpl. by rewrite stored_number_idemp. Qed.

Lemma stored_entry_id e :
  CartEntry.productId (stored_entry e) = CartEntry.productId e.
Proof. done. Qed.

Lemma cart_stored s :
  cart_or_empty (stored s) = stored_entry <$> cart_or_empty s.
Proof. unfold cart_or_empty, stored. simpl. by destruct (Session.cart s). Qed.

Lemma stored_cart_fixed s :
  stored_entry <$> cart_or_empty (stored s) = cart_or_empty (stored s).
Proof.
  rewrite cart_stored, <- list_fmap_compose. apply list_fmap_ext.
  intros i e _. apply stored_entry_idemp.
Qed.

Lemma stored_ids (cart : list CartEntry.t) :
  CartEntry.productId <$> (stored_entry <$> cart) = CartEntry.productId <$> cart.
Proof. rewrite <- list_fmap_compose. by apply list_fmap_ext. Qed.

Lemma stored_entry_integer e :
  integer_quantity e → stored_entry e = e.
Proof. intros [q Hq]. destruct e as [id n]. simpl in *. by subst. Qed.

Lemma stored_integer_cart (cart : list CartEntry.t) :
  Forall integer_quantity cart → stored_entry <$> cart = cart.
Proof.
  intros Hint. rewrite <- (list_fmap_id cart) at 2.
  apply list_fmap_ext. intros i e He. apply stored_entry_integer.
  by apply (Forall_lookup_1 _ _ _ _ Hint He).
Qed.

(** ** Adding to the cart *)

Lemma list_find_first {A} (P : A → Prop) `{!∀ x, Decision (P x)}
    (l1 : list A) (x : A) (l2 : list A) :
  Forall (λ y, ¬ P y) l1 → P x →
  list_find P (l1 ++ x :: l2) = Some (length l1, x).
Proof.
  intros Hl1 Hx. apply list_find_Some. split_and!.
  - by apply list_lookup_middle.
  - done.
  - intros j y Hj Hlt. rewrite lookup_app_l in Hj by done.
    by apply (Forall_lookup_1 _ _ _ _ Hl1 Hj).
Qed.

Lemma not_in_ids (productId : string) (l : list CartEntry.t) :
  productId ∉ CartEntry.productId <$> l ↔
  Forall (λ item, ¬ CartEntry.productId item = productId) l.
Proof.
  rewrite Forall_forall, list_elem_of_fmap. split.
  - intros Hn e He Heq. apply Hn. by exists e.
  - intros Hall (e & -> & He). by apply (Hall e).
Qed.

Lemma first_occurrence (productId : string) (cart : list CartEntry.t) :
  productId ∈ CartEntry.productId <$> cart →
  ∃ l1 e l2, cart = l1 ++ e :: l2
             ∧ CartEntry.productId e = productId
             ∧ productId ∉ CartEntry.productId <$> l1.
Proof.
  induction cart as [|x cart IH]; intros Hin.
  - by apply elem_of_nil in Hin.
  - destruct (decide (CartEntry.productId x = productId)) as [Heq|Hne].
    + exists [], x, cart. split_and!; [done | done | apply not_elem_of_nil].
    + rewrite fmap_cons in Hin. apply elem_of_cons in Hin as [Heq|Hin];
        [by destruct Hne|].
      destruct (IH Hin) as (l1 & e & l2 & -> & He & Hl1).
      exists (x :: l1), e, l2. split_and!; [done | done |].
      rewrite fmap_cons, not_elem_of_cons. by split.
Qed.

Lemma post_cart_add_new id body_quantity s :
  id ∉ CartEntry.productId <$> cart_or_empty s →
  cart_or_empty (post_cart_add id body_quantity s).1
  = cart_or_empty s
    ++ [CartEntry.mk id (Js.parseInt (Js.or_default body_quantity "1"))].
Proof.
  intros Hnew. unfold post_cart_add. simpl.
  apply not_in_ids in Hnew.
  by rewrite (proj2 (list_find_None _ _) Hnew).
Qed.

Lemma post_cart_add_existing id body_quantity s l1 e l2 :
  cart_or_empty s = l1 ++ e :: l2 →
  CartEntry.productId e = id →
  id ∉ CartEntry.productId <$> l1 →
  cart_or_empty (post_cart_add id body_quantity s).1
  = l1 ++ CartEntry.mk id
            (Js.add (CartEntry.quantity e)
                    (Js.parseInt (Js.or_default body_quantity "1")))
       :: l2.
Proof.
  intros Hcart He Hl1. unfold post_cart_add. simpl. rewrite Hcart.
  apply not_in_ids in Hl1.
  rewrite (list_find_first _ l1 e l2 Hl1 He). rewrite He.
  replace (length l1) with (length l1 + 0)%nat by lia.
  by rewrite insert_app_r.
Qed.

Lemma one_entry_of_NoDup (productId : string) (cart : list CartEntry.t) :
  NoDup (CartEntry.productId <$> cart) →
  productId ∈ CartEntry.productId <$> cart →
  length (filter (λ item, CartEntry.productId item = productId) cart) = 1%nat.
Proof.
  intros Hnd Hin.
  destruct (first_occurrence _ _ Hin) as (l1 & e & l2 & -> & He & Hl1).
  rewrite fmap_app, fmap_cons, He in Hnd.
  apply NoDup_app in Hnd as (_ & _ & Hnd).
  apply NoDup_cons in Hnd as [Hl2 _].
  rewrite filter_app, filter_cons_True by done.
  assert (∀ l, productId ∉ CartEntry.productId <$> l →
               filter (λ item, CartEntry.productId item = productId) l = [])
    as Hnil.
  { intros l Hl. apply not_in_ids in Hl.
    induction Hl as [|y l Hy _ IH]; [done|].
    by rewrite filter_cons_False. }
  by rewrite !Hnil.
Qed.

Lemma post_cart_add_NoDup id body_quantity s :
  NoDup (CartEntry.productId <$> cart_or_empty s) →
  NoDup (CartEntry.productId <$> cart_or_empty (post_cart_add id body_quantity s).1).
Proof.
  intros Hnd.
  destruct (decide (id ∈ CartEntry.productId <$> cart_or_empty s)) as [Hin|Hn].
  - destruct (first_occurrence _ _ Hin) as (l1 & e & l2 & Hc & He & Hl1).
    rewrite (post_cart_add_existing id body_quantity s l1 e l2 Hc He Hl1).
    rewrite Hc in Hnd. rewrite !fmap_app, !fmap_cons in *. simpl.
    by rewrite He in Hnd.
  - rewrite (post_cart_add_new id body_quantity s Hn), fmap_app. simpl.
    apply NoDup_app. split_and!; [done | | apply NoDup_singleton].
    intros x Hx Hx'. apply list_elem_of_singleton in Hx'. by subst.
Qed.

Lemma filter_ids_NoDup (P : CartEntry.t → Prop) `{!∀ x, Decision (P x)}
    (cart : list CartEntry.t) :
  NoDup (CartEntry.productId <$> cart) →
  NoDup (CartEntry.productId <$> filter P cart).
Proof.
  induction cart as [|e cart IH]; [done|].
  rewrite fmap_cons, NoDup_cons. intros [Hne Hnd].
  destruct (decide (P e)).
  - rewrite filter_cons_True, fmap_cons, NoDup_cons by done.
    split; [|by apply IH].
    intros (x & Hx & Hin%list_elem_of_filter)%list_elem_of_fmap.
    apply Hne, list_elem_of_fmap. exists x. by destruct Hin.
  - rewrite filter_cons_False by done. by apply IH.
Qed.

(** Removing an id the cart does not hold leaves the cart as it is. *)
Lemma post_cart_remove_absent id s :
  id ∉ CartEntry.productId <$> cart_or_empty s →
  cart_or_empty (post_cart_remove id s).1 = cart_or_empty s.
Proof.
  intros Hn. apply not_in_ids in Hn.
  transitivity (filter (λ item, CartEntry.productId item ≠ id)
                       (cart_or_empty s)); [done|].
  induction Hn as [|e l He _ IH]; [done|].
  rewrite filter_cons_True by done. by rewrite IH.
Qed.

Lemma update_ids quantities (cart : list CartEntry.t) :
  CartEntry.productId <$> (update_item quantities <$> cart)
  = CartEntry.productId <$> cart.
Proof.
  rewrite <- list_fmap_compose. apply list_fmap_ext.
  intros i e _. apply update_item_id.
Qed.

(** No cart the handlers produce holds a productId twice. *)
Lemma reachable_NoDup s :
  reachable s → NoDup (CartEntry.productId <$> cart_or_empty s).
Proof.
  induction 1 as [u | id q s _ IH | id s _ IH | m s _ IH | s _ IH | u s _ IH
                 | s _ IH].
  - apply NoDup_nil_2.
  - by apply post_cart_add_NoDup.
  - by apply (filter_ids_NoDup _ (cart_or_empty s)).
  - change (NoDup (CartEntry.productId
                   <$> (update_item (default ∅ m) <$> cart_or_empty s))).
    by rewrite update_ids.
  - apply NoDup_nil_2.
  - done.
  - by rewrite cart_stored, stored_ids.
Qed.

(** C7 as stated fails on a cart that already holds the product: from a
    cart with five of G24N001, adding 1 and then 2 leaves one entry with
    quantity 8, not 1 + 2. *)
Lemma add_twice_accumulates_on_existing :
  let s := Session.mk None (Some [CartEntry.mk "G24N001" (Js.Num 5)]) in
  let s' := (post_cart_add "G24N001" (Some "2")
               (post_cart_add "G24N001" (Some "1") s).1).1 in
  Session.cart s' = Some [CartEntry.mk "G24N001" (Js.Num 8)]
  ∧ Session.cart s' ≠ Some [CartEntry.mk "G24N001" (Js.add (Js.Num 1) (Js.Num 2))].
Proof. split; [by vm_compute | by vm_compute]. Qed.

Lemma stored_middle (cart l1 l2 : list CartEntry.t) e :
  stored_entry <$> cart = cart → cart = l1 ++ e :: l2 →
  stored_entry <$> l1 = l1 ∧ stored_entry e = e ∧ stored_entry <$> l2 = l2.
Proof.
  intros Hfix ->. rewrite fmap_app, fmap_cons in Hfix.
  apply app_inj_1 in Hfix as [H1 H2]; [|by rewrite length_fmap].
  by injection H2 as H2 H3.
Qed.

(** C7, amended.  Two adds of the same productId, in two requests, with
    quantities that parse to q1 and q2, on a cart as the session store
    holds it.  When the productId is new, one entry is appended at the
    end and the existing entries keep their order; its quantity is
    q1 + q2, a double sum (exact while it is at most 2^53 in magnitude; a
    q1 that is NaN or an infinity has become null in the store and counts
    as 0).  When the cart already has an entry for it, q1 and then q2 are
    added to the quantity of the first such entry, in place, and nothing
    is appended.  On a cart with no productId twice, so on every cart the
    handlers produce, the result has no productId twice and exactly one
    entry for the productId. *)
Theorem add_twice_one_entry id body_q1 body_q2 s :
  let q1 := Js.parseInt (Js.or_default body_q1 "1") in
  let q2 := Js.parseInt (Js.or_default body_q2 "1") in
  let cart := cart_or_empty (stored s) in
  let s1 := stored (post_cart_add id body_q1 (stored s)).1 in
  let cart' := cart_or_empty (post_cart_add id body_q2 s1).1 in
  (id ∉ CartEntry.productId <$> cart →
   cart' = cart ++ [CartEntry.mk id (Js.add (stored_number q1) q2)])
  ∧ (∀ l1 e l2,
       cart = l1 ++ e :: l2 → CartEntry.productId e = id →
       id ∉ CartEntry.productId <$> l1 →
       cart' = l1 ++ CartEntry.mk id
                       (Js.add (stored_number
                                  (Js.add (CartEntry.quantity e) q1)) q2)
                  :: l2)
  ∧ (∀ z0 z1 z2,
       Z.abs (z0 + z1) ≤ 2 ^ 53 → Z.abs (z0 + z1 + z2) ≤ 2 ^ 53 →
       Js.add (stored_number (Js.add (Js.Num z0) (Js.Num z1))) (Js.Num z2)
       = Js.Num (z0 + z1 + z2)
       ∧ (z0 = 0 → Js.add (stored_number (Js.Num z1)) (Js.Num z2)
                   = Js.Num (z1 + z2)))
  ∧ (NoDup (CartEntry.productId <$> cart) →
     NoDup (CartEntry.productId <$> cart')
     ∧ length (filter (λ item, CartEntry.productId item = id) cart') = 1%nat)
  ∧ (reachable s →
     length (filter (λ item, CartEntry.productId item = id) cart') = 1%nat).
Proof.
  intros q1 q2 cart s1 cart'.
  pose proof (stored_cart_fixed s) as Hfix. fold cart in Hfix.
  assert (id ∉ CartEntry.productId <$> cart →
          cart' = cart ++ [CartEntry.mk id (Js.add (stored_number q1) q2)])
    as Hnew.
  { intros Hn. subst cart'.
    rewrite (post_cart_add_existing id body_q2 s1 cart
               (CartEntry.mk id (stored_number q1)) []).
    - done.
    - subst s1. rewrite cart_stored.
      rewrite (post_cart_add_new id body_q1 (stored s) Hn).
      fold cart. by rewrite fmap_app, Hfix.
    - done.
    - done. }
  assert (∀ l1 e l2,
            cart = l1 ++ e :: l2 → CartEntry.productId e = id →
            id ∉ CartEntry.productId <$> l1 →
            cart' = l1 ++ CartEntry.mk id
                            (Js.add (stored_number
                                       (Js.add (CartEntry.quantity e) q1)) q2)
                       :: l2) as Hold.
  { intros l1 e l2 Hc He Hl1. subst cart'.
    destruct (stored_middle cart l1 l2 e Hfix Hc) as (Hl1fix & _ & Hl2fix).
    rewrite (post_cart_add_existing id body_q2 s1 l1
               (CartEntry.mk id
                  (stored_number (Js.add (CartEntry.quantity e) q1))) l2).
    - done.
    - subst s1. rewrite cart_stored.
      rewrite (post_cart_add_existing id body_q1 (stored s) l1 e l2 Hc He Hl1).
      by rewrite fmap_app, fmap_cons, Hl1fix, Hl2fix.
    - done.
    - done. }
  assert (∀ z0 z1 z2,
            Z.abs (z0 + z1) ≤ 2 ^ 53 → Z.abs (z0 + z1 + z2) ≤ 2 ^ 53 →
            Js.add (stored_number (Js.add (Js.Num z0) (Js.Num z1)))
                   (Js.Num z2)
            = Js.Num (z0 + z1 + z2)
            ∧ (z0 = 0 → Js.add (stored_number (Js.Num z1)) (Js.Num z2)
                        = Js.Num (z1 + z2))) as Hexact.
  { intros z0 z1 z2 H01 H012. split.
    - rewrite (add_exact z0 z1 H01). simpl stored_number.
      by apply add_exact.
    - intros ->. simpl stored_number. apply add_exact.
      by replace (z1 + z2) with (0 + z1 + z2) by lia. }
  assert (NoDup (CartEntry.productId <$> cart) →
          NoDup (CartEntry.productId <$> cart')
          ∧ length (filter (λ item, CartEntry.productId item = id) cart')
            = 1%nat) as Hone; [|split_and!; [done | done | done | done |]].
  2: { intros Hr. apply Hone. subst cart.
       by apply reachable_NoDup, reachable_stored. }
  intros Hnd.
  assert (NoDup (CartEntry.productId <$> cart')
          ∧ id ∈ CartEntry.productId <$> cart') as [Hnd' Hin'].
  { destruct (decide (id ∈ CartEntry.productId <$> cart)) as [Hin|Hn].
    - destruct (first_occurrence _ _ Hin) as (l1 & e & l2 & Hc & He & Hl1).
      rewrite (Hold l1 e l2 Hc He Hl1).
      rewrite Hc in Hnd, Hin.
      rewrite !fmap_app, !fmap_cons in *. simpl. by rewrite He in Hnd, Hin.
    - rewrite (Hnew Hn). rewrite fmap_app. simpl. split.
      + apply NoDup_app. split_and!; [done | | apply NoDup_singleton].
        intros x Hx Hx'. apply list_elem_of_singleton in Hx'. by subst.
      + apply elem_of_app. right. by apply list_elem_of_singleton. }
  split; [done|]. by apply one_entry_of_NoDup.
Qed.

Lemma add_twice_one_entry_witness :
  cart_or_empty
    (post_cart_add "S925B001" (Some "2")
       (stored (post_cart_add "S925B001" (Some "1")
                  (stored Demo.session)).1)).1
  = Demo.cart ++ [CartEntry.mk "S925B001" (Js.Num 3)].
Proof.
  destruct (add_twice_one_entry "S925B001" (Some "1") (Some "2") Demo.session)
    as (Hnew & _ & _ & _ & _).
  rewrite Hnew; [reflexivity|].
  apply not_in_ids. by repeat constructor.
Defined.

(** A quantity that does not parse is NaN in the request that adds it and
    null in the store, so a later add of 2 leaves 2. *)
Example add_after_unparsable_quantity :
  cart_or_empty
    (post_cart_add "G24N001" (Some "2")
       (stored (post_cart_add "G24N001" (Some "abc")
                  (stored (Session.mk None None))).1)).1
  = [CartEntry.mk "G24N001" (Js.Num 2)].
Proof. by vm_compute. Qed.

(** C5.  [POST /cart/add/:id] stores whatever [parseInt] returns: 1 when
    the quantity is absent or empty, but 0 for "0", -5 for "-5" and NaN for
    "abc".  The update handler, given the same strings, stores 1. *)
Theorem cart_add_stores_unchecked_quantity :
  let empty := Session.mk None None in
  let added q := Session.cart (post_cart_add "G24N001" q empty).1 in
  let updated v :=
    Session.cart
      (post_cart_update (Some {[ "G24N001" := v ]})
         (Session.mk None (Some [CartEntry.mk "G24N001" (Js.Num 2)]))).1 in
  added None = Some [CartEntry.mk "G24N001" (Js.Num 1)]
  ∧ added (Some "") = Some [CartEntry.mk "G24N001" (Js.Num 1)]
  ∧ added (Some "0") = Some [CartEntry.mk "G24N001" (Js.Num 0)]
  ∧ added (Some "-5") = Some [CartEntry.mk "G24N001" (Js.Num (-5))]
  ∧ added (Some "abc") = Some [CartEntry.mk "G24N001" Js.NaN]
  ∧ updated "0" = Some [CartEntry.mk "G24N001" (Js.Num 1)]
  ∧ updated "-5" = Some [CartEntry.mk "G24N001" (Js.Num 1)]
  ∧ updated "abc" = Some [CartEntry.mk "G24N001" (Js.Num 1)].
Proof. by vm_compute. Qed.




(** ** The metal pages *)






(** ** Loading a collection *)

(** C9.  When the backing file cannot be read, or its content fails to
    parse, [readJson] returns the empty collection: no exception reaches
    the caller, and the load gives what it gives when the file holds the
    empty array.  (An empty file is read as the text of the empty array.) *)
Theorem readJson_fails_open {A} `{!Json (list A)}
    (fs : gmap string string) (filePath : string) :
  JSON_parse "[]" = Ok ([] : list A) →
  (∃ e, readFileSync fs filePath = Throw e)
  ∨ (∃ raw e, readFileSync fs filePath = Ok raw
              ∧ JSON_parse (A := list A) raw = Throw e) →
  readJson fs filePath = ([] : list A)
  ∧ readJson fs filePath
    = (readJson (writeFileSync fs filePath "[]") filePath : list A).
Proof.
  intros Hempty Hfail.
  assert (readJson fs filePath = ([] : list A)) as Hnil.
  { destruct Hfail as [(e & Hread) | (raw & e & Hread & Hparse)];
      unfold readJson; rewrite Hread; simpl; [done|].
    unfold raw_or_empty_array. destruct raw as [|c raw]; simpl.
    - by rewrite Hempty.
    - by rewrite Hparse. }
  split; [done|]. rewrite Hnil.
  unfold readJson, readFileSync, writeFileSync.
  rewrite lookup_insert_eq. unfold bind, raw_or_empty_array. simpl.
  by rewrite Hempty.
Qed.

Lemma readJson_fails_open_witness :
  @readJson _ Demo.products_json ∅ PRODUCTS_FILE = []
  ∧ @readJson _ Demo.products_json
      {[ PRODUCTS_FILE := "[{ not json" ]} PRODUCTS_FILE = [].
Proof.
  split.
  - apply (@readJson_fails_open _ Demo.products_json ∅ PRODUCTS_FILE
             eq_refl).
    left. by exists FsError.
  - apply (@readJson_fails_open _ Demo.products_json
             {[ PRODUCTS_FILE := "[{ not json" ]} PRODUCTS_FILE eq_refl).
    right. by exists "[{ not json", SyntaxError.
Defined.

(** * The rest of the server *)

(** ** The store *)

(** X1.  Under a codec that reads back what it wrote, a collection written
    with [writeJson] is what [readJson] returns for that file; the other
    files read as before; and of two writes to one file the second alone
    remains. *)
Theorem store_round_trip {A} `{!Json (list A)}
    (fs : gmap string string) (filePath : string) (data data0 : list A) :
  round_trips data →
  readJson (writeJson fs filePath data) filePath = data
  ∧ (∀ {B} `{!Json (list B)} other,
       other ≠ filePath →
       @readJson B _ (writeJson fs filePath data) other = readJson fs other)
  ∧ writeJson (writeJson fs filePath data0) filePath data
    = writeJson fs filePath data.
Proof.
  intros [Hne Hrt]. split_and!.
  - by apply readJson_written.
  - intros B ? other Hother. unfold writeJson.
    by apply readJson_frame.
  - unfold writeJson, writeFileSync. apply insert_insert_eq.
Qed.

Lemma store_round_trip_witness :
  @readJson _ DemoAccounts.seed_json
    (@writeJson _ DemoAccounts.seed_json ∅ PRODUCTS_FILE sample)
    PRODUCTS_FILE
  = sample.
Proof.
  refine (proj1 (@store_round_trip _ DemoAccounts.seed_json ∅ PRODUCTS_FILE
                   sample [] _)).
  split; [by vm_compute | reflexivity].
Defined.

(** ** Start-up *)

Lemma ensured_file_dirs d file : dirs (ensured_file d file) = dirs d.
Proof. unfold ensured_file. by destruct (existsSync d file). Qed.

Lemma ensured_file_lookup d file path :
  files (ensured_file d file) !! path
  = if decide (path = file ∧ existsSync d file = false) then Some "[]"
    else files d !! path.
Proof.
  unfold ensured_file. destruct (existsSync d file) eqn:E.
  - rewrite decide_False; [done|]. by intros [_ ?].
  - simpl. unfold writeFileSync. destruct (decide (path = file)) as [->|Hne].
    + rewrite decide_True by done. apply lookup_insert_eq.
    + rewrite decide_False by (by intros [? _]).
      by apply lookup_insert_ne.
Qed.

Lemma existsSync_true d path :
  existsSync d path = true ↔ path ∈ dirs d ∨ is_Some (files d !! path).
Proof. unfold existsSync. apply bool_decide_eq_true. Qed.

Lemma existsSync_ensured_file d file path :
  existsSync (ensured_file d file) path
  = existsSync d path || bool_decide (path = file).
Proof.
  apply eq_true_iff_eq.
  rewrite orb_true_iff, bool_decide_eq_true, !existsSync_true.
  rewrite ensured_file_dirs, ensured_file_lookup.
  destruct (decide (path = file ∧ existsSync d file = false)) as [[-> E]|Hn].
  - split; [by right | intros _; right; eauto].
  - split; [tauto|]. intros [?| ->]; [done|].
    destruct (existsSync d file) eqn:E; [|by destruct Hn].
    by apply existsSync_true in E.
Qed.

Lemma ensured_file_exists d file :
  existsSync d file = true → ensured_file d file = d.
Proof. intros E. unfold ensured_file. by rewrite E. Qed.

Lemma existsSync_mkdirSync d dir path :
  existsSync (mkdirSync d dir) path
  = existsSync d path || bool_decide (path = dir).
Proof.
  apply eq_true_iff_eq.
  rewrite orb_true_iff, bool_decide_eq_true, !existsSync_true.
  unfold mkdirSync. simpl. rewrite elem_of_union, elem_of_singleton. tauto.
Qed.

(** The data files, in the order [ensureDataFiles] creates them. *)
Lemma data_files_distinct :
  NoDup [DATA_DIR; USERS_FILE; PRODUCTS_FILE; ORDERS_FILE; CONTACTS_FILE].
Proof. apply (bool_decide_unpack _). by vm_compute. Qed.

Lemma existsSync_foldl_ensured (l : list string) d path :
  existsSync (foldl ensured_file d l) path
  = existsSync d path || bool_decide (path ∈ l).
Proof.
  revert d. induction l as [|file l IH]; intros d; cbn [foldl].
  - rewrite bool_decide_eq_false_2 by apply not_elem_of_nil.
    by rewrite orb_false_r.
  - rewrite IH, existsSync_ensured_file, <- orb_assoc. f_equal.
    apply eq_true_iff_eq.
    rewrite orb_true_iff, !bool_decide_eq_true, elem_of_cons. tauto.
Qed.

Lemma lookup_foldl_ensured (l : list string) d path :
  files (foldl ensured_file d l) !! path
  = if decide (path ∈ l ∧ existsSync d path = false) then Some "[]"
    else files d !! path.
Proof.
  revert d. induction l as [|file l IH]; intros d; cbn [foldl].
  - rewrite decide_False; [done|]. intros [Hin _]. by apply elem_of_nil in Hin.
  - rewrite IH, existsSync_ensured_file, ensured_file_lookup.
    destruct (existsSync d path) eqn:E; simpl.
    + rewrite !decide_False; [done | by intros [_ ?] | | by intros [_ ?]].
      intros [-> E']. congruence.
    + destruct (decide (path = file)) as [->|Hne].
      * rewrite bool_decide_eq_true_2 by done.
        rewrite (decide_False (P := _ ∧ true = false)) by (by intros [_ ?]).
        rewrite !decide_True; [done | | done].
        split; [apply elem_of_cons; by left | done].
      * rewrite bool_decide_eq_false_2 by done.
        rewrite (decide_False (P := path = file ∧ _)) by (by intros [? _]).
        apply decide_ext. rewrite elem_of_cons. tauto.
Qed.

Lemma foldl_ensured_exists (l : list string) d :
  Forall (λ file, existsSync d file = true) l → foldl ensured_file d l = d.
Proof.
  induction 1 as [|file l Hf _ IH]; cbn [foldl]; [done|].
  by rewrite (ensured_file_exists d file Hf).
Qed.

Lemma dirs_foldl_ensured (l : list string) d :
  dirs (foldl ensured_file d l) = dirs d.
Proof.
  revert d. induction l as [|file l IH]; intros d; cbn [foldl]; [done|].
  by rewrite IH, ensured_file_dirs.
Qed.

Lemma ensure_files_in_directory (l : list string) d :
  DATA_DIR ∈ dirs d → ensure_files d l = Ok (foldl ensured_file d l).
Proof.
  revert d. induction l as [|file l IH]; intros d Hdir; cbn [foldl]; [done|].
  cbn [ensure_files]. unfold ensure_file, write_data_file.
  rewrite (bool_decide_eq_true_2 _ Hdir).
  assert (ensured_file d file
          = if existsSync d file then d
            else mkDisk (dirs d) (writeFileSync (files d) file "[]"))
    as Hpure by done.
  destruct (existsSync d file); cbn [bind]; rewrite Hpure; apply IH; done.
Qed.

Lemma ensure_files_under_file (l : list string) d :
  DATA_DIR ∉ dirs d →
  ensure_files d l
  = if decide (Forall (λ file, existsSync d file = true) l)
    then Ok d else Throw FsError.
Proof.
  intros Hdir. induction l as [|file l IH]; [done|].
  cbn [ensure_files]. unfold ensure_file, write_data_file.
  rewrite (bool_decide_eq_false_2 _ Hdir).
  destruct (existsSync d file) eqn:E; cbn [bind].
  - rewrite IH. apply decide_ext. rewrite Forall_cons. tauto.
  - rewrite decide_False; [done|]. rewrite Forall_cons. intros [? _].
    congruence.
Qed.

Lemma ensureDataFiles_loop d :
  ensureDataFiles d
  = ensure_files (if existsSync d DATA_DIR then d else mkdirSync d DATA_DIR)
      [USERS_FILE; PRODUCTS_FILE; ORDERS_FILE; CONTACTS_FILE].
Proof.
  unfold ensureDataFiles. cbn [ensure_files].
  destruct (ensure_file _ USERS_FILE) as [d1|]; [|done]. cbn [bind].
  destruct (ensure_file d1 PRODUCTS_FILE) as [d2|]; [|done]. cbn [bind].
  destruct (ensure_file d2 ORDERS_FILE) as [d3|]; [|done]. cbn [bind].
  by destruct (ensure_file d3 CONTACTS_FILE).
Qed.

(** X2.  When the data path is a directory or does not exist,
    [ensureDataFiles] succeeds: afterwards the data directory and the four
    collection files exist; the only directory added is the data
    directory; a collection file that was missing holds the empty array
    and every other path holds what it held; and running it again changes
    nothing.  When the data path exists but is not a directory, no file
    lies under it and [ensureDataFiles] throws at its first write. *)
Theorem ensureDataFiles_creates_only_missing (d : Disk) :
  let data_files := [USERS_FILE; PRODUCTS_FILE; ORDERS_FILE; CONTACTS_FILE] in
  (DATA_DIR ∈ dirs d ∨ existsSync d DATA_DIR = false →
   ∃ d',
     ensureDataFiles d = Ok d'
     ∧ dirs d' = {[ DATA_DIR ]} ∪ dirs d
     ∧ (∀ path,
          files d' !! path
          = if decide (path ∈ data_files ∧ existsSync d path = false)
            then Some "[]" else files d !! path)
     ∧ Forall (λ path, existsSync d' path = true) (DATA_DIR :: data_files)
     ∧ ensureDataFiles d' = Ok d')
  ∧ (DATA_DIR ∉ dirs d → existsSync d DATA_DIR = true →
     Forall (λ path, existsSync d path = false) data_files →
     ensureDataFiles d = Throw FsError).
Proof.
  intros data_files. split.
  - intros Hdata.
    set (d0 := if existsSync d DATA_DIR then d else mkdirSync d DATA_DIR).
    assert (DATA_DIR ∈ dirs d0 ∧ dirs d0 = {[ DATA_DIR ]} ∪ dirs d)
      as [Hdir0 Hdirs0].
    { subst d0. destruct (existsSync d DATA_DIR) eqn:E.
      - destruct Hdata as [Hin|?]; [|done]. split; [done|].
        apply set_eq. intros x. rewrite elem_of_union, elem_of_singleton.
        split; [tauto|]. by intros [->|?].
      - simpl. split; [|done]. apply elem_of_union. left.
        by apply elem_of_singleton. }
    assert (∀ path, existsSync d0 path
                    = existsSync d path || bool_decide (path = DATA_DIR))
      as Hd0.
    { intros path. subst d0. destruct (existsSync d DATA_DIR) eqn:E.
      - destruct (decide (path = DATA_DIR)) as [->|Hne].
        + by rewrite E.
        + by rewrite bool_decide_eq_false_2, orb_false_r.
      - apply existsSync_mkdirSync. }
    assert (files d0 = files d) as Hfiles.
    { subst d0. by destruct (existsSync d DATA_DIR). }
    assert (ensureDataFiles d = ensure_files d0 data_files) as Hloop
      by apply ensureDataFiles_loop.
    clearbody d0.
    exists (foldl ensured_file d0 data_files).
    assert (Forall (λ path, existsSync (foldl ensured_file d0 data_files) path
                            = true) (DATA_DIR :: data_files)) as Hall.
    { apply Forall_forall. intros path Hin.
      rewrite existsSync_foldl_ensured, Hd0.
      apply elem_of_cons in Hin as [->|Hin].
      - by rewrite bool_decide_eq_true_2, orb_true_r.
      - by rewrite (bool_decide_eq_true_2 (path ∈ data_files)), orb_true_r. }
    split_and!.
    + rewrite Hloop. by apply ensure_files_in_directory.
    + by rewrite dirs_foldl_ensured.
    + intros path. rewrite lookup_foldl_ensured, Hfiles, Hd0.
      apply decide_ext. split; intros [Hin E]; (split; [done|]).
      * by apply orb_false_iff in E as [E _].
      * rewrite E. simpl. apply bool_decide_eq_false_2. intros ->.
        pose proof data_files_distinct as Hnd.
        apply NoDup_cons in Hnd as [Hnd _]. by apply Hnd.
    + done.
    + apply Forall_cons in Hall as [Hdir Hfs].
      rewrite ensureDataFiles_loop, Hdir.
      rewrite ensure_files_in_directory
        by (by rewrite dirs_foldl_ensured).
      f_equal. by apply foldl_ensured_exists.
  - intros Hdir Hexists Hnone. rewrite ensureDataFiles_loop, Hexists.
    rewrite (ensure_files_under_file _ _ Hdir).
    apply decide_False. intros Hall.
    apply Forall_cons in Hnone as [Hno _].
    apply Forall_cons in Hall as [Hyes _]. congruence.
Qed.

Lemma ensureDataFiles_creates_only_missing_witness :
  ensureDataFiles (mkDisk ∅ {[ USERS_FILE := "[U1700000000500]" ]})
  = Ok (mkDisk {[ DATA_DIR ]}
          {[ USERS_FILE := "[U1700000000500]"; PRODUCTS_FILE := "[]";
             ORDERS_FILE := "[]"; CONTACTS_FILE := "[]" ]})
  ∧ ensureDataFiles (mkDisk ∅ {[ DATA_DIR := "not a directory" ]})
    = Throw FsError.
Proof.
  split.
  - destruct (proj1 (ensureDataFiles_creates_only_missing
                       (mkDisk ∅ {[ USERS_FILE := "[U1700000000500]" ]})))
      as (d' & Hrun & _).
    { right. by vm_compute. }
    rewrite Hrun. by vm_compute.
  - rewrite (proj2 (ensureDataFiles_creates_only_missing
                      (mkDisk ∅ {[ DATA_DIR := "not a directory" ]}))).
    + done.
    + apply not_elem_of_empty.
    + by vm_compute.
    + repeat constructor.
Defined.

Lemma readJson_no_file {A} `{!Json (list A)} fs filePath :
  fs !! filePath = None → readJson fs filePath = ([] : list A).
Proof. intros Hf. unfold readJson, readFileSync. by rewrite Hf. Qed.

Lemma readJson_bad_text {A} `{!Json (list A)} fs filePath raw e :
  fs !! filePath = Some raw → raw ≠ "" →
  JSON_parse (A := list A) raw = Throw e →
  readJson fs filePath = ([] : list A).
Proof.
  intros Hf Hne Hp. unfold readJson, readFileSync. rewrite Hf. simpl.
  unfold raw_or_empty_array. destruct raw; [done|]. simpl. by rewrite Hp.
Qed.

Lemma seedProducts_empty `{!Json (list Product.t)} fs :
  readJson fs PRODUCTS_FILE = ([] : list Product.t) →
  seedProducts fs = writeJson fs PRODUCTS_FILE sample.
Proof. intros He. unfold seedProducts. by rewrite He. Qed.

Lemma seedProducts_nonempty `{!Json (list Product.t)} fs :
  readJson fs PRODUCTS_FILE ≠ ([] : list Product.t) →
  seedProducts fs = fs.
Proof.
  intros Hne. unfold seedProducts.
  destruct (readJson fs PRODUCTS_FILE) as [|p l]; [done|].
  by rewrite bool_decide_eq_false_2.
Qed.

(** X3.  Under a codec that reads the seed array back: [seedProducts]
    touches no file but the product collection; a catalogue that loads
    non-empty is left as it is, one that loads empty becomes the seed
    array; afterwards the catalogue is never empty, and seeding again
    changes nothing. *)
Theorem seedProducts_fills_only_empty `{!Json (list Product.t)}
    (fs : gmap string string) :
  round_trips sample →
  let fs' := seedProducts fs in
  (∀ path, path ≠ PRODUCTS_FILE → fs' !! path = fs !! path)
  ∧ readJson fs' PRODUCTS_FILE
    = match readJson fs PRODUCTS_FILE with
      | [] => sample
      | products => products
      end
  ∧ readJson fs' PRODUCTS_FILE ≠ ([] : list Product.t)
  ∧ (readJson fs PRODUCTS_FILE ≠ ([] : list Product.t) → fs' = fs)
  ∧ seedProducts fs' = fs'.
Proof.
  intros [Hne Hrt] fs'. subst fs'.
  destruct (readJson fs PRODUCTS_FILE) as [|p l] eqn:E.
  - rewrite (seedProducts_empty fs E).
    assert (readJson (writeJson fs PRODUCTS_FILE sample) PRODUCTS_FILE
            = sample) as Hread by (by apply readJson_written).
    split_and!.
    + intros path Hp. unfold writeJson, writeFileSync.
      by rewrite lookup_insert_ne.
    + done.
    + by rewrite Hread.
    + done.
    + apply seedProducts_nonempty. by rewrite Hread.
  - assert (readJson fs PRODUCTS_FILE ≠ ([] : list Product.t)) as Hl
      by (by rewrite E).
    rewrite (seedProducts_nonempty fs Hl). rewrite E.
    split_and!; try done. by apply seedProducts_nonempty.
Qed.

Lemma seedProducts_fills_only_empty_witness :
  @readJson _ DemoAccounts.seed_json
    (@seedProducts DemoAccounts.seed_json DemoAccounts.fs) PRODUCTS_FILE
  = sample.
Proof.
  assert (@round_trips _ DemoAccounts.seed_json sample) as Hrt.
  { split; [by vm_compute | reflexivity]. }
  destruct (@seedProducts_fills_only_empty DemoAccounts.seed_json
              DemoAccounts.fs Hrt) as (_ & Hread & _).
  rewrite Hread. reflexivity.
Defined.

(** X4.  A product file that is missing, or holds text that fails to
    parse, loads as the empty catalogue, so [seedProducts] replaces it with
    the seed array: the text it held is gone. *)
Theorem seedProducts_overwrites_unreadable `{!Json (list Product.t)}
    (fs : gmap string string) :
  fs !! PRODUCTS_FILE = None
  ∨ (∃ raw e, fs !! PRODUCTS_FILE = Some raw ∧ raw ≠ ""
              ∧ JSON_parse (A := list Product.t) raw = Throw e) →
  seedProducts fs !! PRODUCTS_FILE = Some (JSON_stringify sample).
Proof.
  intros Hbad.
  assert (readJson fs PRODUCTS_FILE = ([] : list Product.t)) as He.
  { destruct Hbad as [Hnone | (raw & e & Hraw & Hne & Hp)].
    - by apply readJson_no_file.
    - by apply (readJson_bad_text fs PRODUCTS_FILE raw e). }
  rewrite (seedProducts_empty fs He). unfold writeJson, writeFileSync.
  apply lookup_insert_eq.
Qed.

Lemma seedProducts_overwrites_unreadable_witness :
  @seedProducts DemoAccounts.seed_json
    {[ PRODUCTS_FILE := "[{ id: G24N001, price: 1" ]} !! PRODUCTS_FILE
  = Some "[seed]".
Proof.
  apply (@seedProducts_overwrites_unreadable DemoAccounts.seed_json
           {[ PRODUCTS_FILE := "[{ id: G24N001, price: 1" ]}).
  right. exists "[{ id: G24N001, price: 1", SyntaxError.
  split_and!; [by vm_compute | done | reflexivity].
Defined.

(** ** The login gate *)

(** X5.  Without a session user the checkout form, the checkout submit and
    the orders page all answer with a redirect to [/login]; the submit
    writes nothing and leaves the session as it is.  This is the state
    [GET /logout] leaves. *)
Theorem anonymous_is_sent_to_login
    `{!Json (list Product.t)} `{!Json (list Order.t)}
    now iso b (fs : gmap string string) (s : Session.t) :
  Session.user s = None →
  get_checkout fs s = Redirect "/login"
  ∧ get_orders fs s = Redirect "/login"
  ∧ post_checkout now iso b fs s = (fs, s, Redirect "/login").
Proof.
  intros Hu. unfold get_checkout, get_orders, post_checkout, requireLogin.
  by rewrite Hu.
Qed.

Lemma anonymous_is_sent_to_login_witness :
  @post_checkout Demo.products_json Demo.orders_json
    1700000000123 "2023-11-14T22:13:20.123Z" Demo.body
    Demo.fs (get_logout Demo.session).1
  = (Demo.fs, Session.mk None None, Redirect "/login").
Proof.
  apply (@anonymous_is_sent_to_login Demo.products_json Demo.orders_json
           1700000000123 "2023-11-14T22:13:20.123Z" Demo.body
           Demo.fs (get_logout Demo.session).1 eq_refl).
Defined.

(** ** The product page *)

(** X6.  [GET /product/:id] answers 404 exactly when no product of the
    catalogue has that id, and otherwise renders the first product with
    that id under its name as title; it is 404 exactly for the ids whose
    cart entries are dropped from the cart view. *)
Theorem product_page_found_or_404 `{!Json (list Product.t)}
    (id : string) (fs : gmap string string) :
  let products := readJson fs PRODUCTS_FILE in
  (get_product id fs = SendStatus 404 "Product not found"
   ↔ Forall (λ p, Product.id p ≠ id) products)
  ∧ (∀ l1 p l2,
       products = l1 ++ p :: l2 → Product.id p = id →
       Forall (λ q, Product.id q ≠ id) l1 →
       get_product id fs
       = RenderPage "product" (ProductLocals (Product.name p) p))
  ∧ (∀ q,
       get_product id fs = SendStatus 404 "Product not found"
       ↔ detailedCart_live products [CartEntry.mk id q] = []).
Proof.
  intros products. subst products. unfold get_product.
  split_and!.
  - rewrite <- find_product_None.
    by destruct (find_product (readJson fs PRODUCTS_FILE) id).
  - intros l1 p l2 Hp <- Hl1.
    by rewrite (find_product_first _ l1 p l2 Hp Hl1).
  - intros q. rewrite detailedCart_live_cons. simpl.
    by destruct (find_product (readJson fs PRODUCTS_FILE) id).
Qed.

(** ** Removing from the cart *)

(** X7.  After [POST /cart/remove/:id] the cart holds no entry for the id
    and exactly the other entries, in their order; a cart without the id
    is unchanged; and removing twice is removing once. *)
Theorem remove_drops_every_entry_of_id (id : string) (s : Session.t) :
  let cart := cart_or_empty s in
  let cart' := cart_or_empty (post_cart_remove id s).1 in
  (id ∉ CartEntry.productId <$> cart')
  ∧ (∀ e, e ∈ cart' ↔ e ∈ cart ∧ CartEntry.productId e ≠ id)
  ∧ (cart' `sublist_of` cart)
  ∧ (id ∉ CartEntry.productId <$> cart → cart' = cart)
  ∧ post_cart_remove id (post_cart_remove id s).1 = post_cart_remove id s.
Proof.
  intros cart cart'.
  assert (cart' = filter (λ item, CartEntry.productId item ≠ id) cart)
    as Hcart' by done.
  split_and!.
  - rewrite Hcart', list_elem_of_fmap.
    intros (e & -> & He%list_elem_of_filter). by destruct He.
  - intros e. rewrite Hcart', list_elem_of_filter. tauto.
  - rewrite Hcart'. apply sublist_filter.
  - apply post_cart_remove_absent.
  - unfold post_cart_remove. simpl. f_equal. unfold Session.set_cart.
    simpl. f_equal. f_equal. apply list_filter_filter_l. done.
Qed.

(** X8.  Removing an id right after adding it gives the cart that removing
    it alone gives, whatever the quantity; on a cart that did not hold the
    id, add followed by remove gives the cart back. *)
Theorem remove_after_add (id : string) (body_quantity : option string)
    (s : Session.t) :
  cart_or_empty (post_cart_remove id (post_cart_add id body_quantity s).1).1
  = cart_or_empty (post_cart_remove id s).1
  ∧ (id ∉ CartEntry.productId <$> cart_or_empty s →
     cart_or_empty
       (post_cart_remove id (post_cart_add id body_quantity s).1).1
     = cart_or_empty s).
Proof.
  assert (cart_or_empty
            (post_cart_remove id (post_cart_add id body_quantity s).1).1
          = cart_or_empty (post_cart_remove id s).1) as Heq.
  { change (filter (λ item, CartEntry.productId item ≠ id)
              (cart_or_empty (post_cart_add id body_quantity s).1)
            = filter (λ item, CartEntry.productId item ≠ id)
                (cart_or_empty s)).
    destruct (decide (id ∈ CartEntry.productId <$> cart_or_empty s))
      as [Hin|Hn].
    - destruct (first_occurrence _ _ Hin) as (l1 & e & l2 & Hc & He & Hl1).
      rewrite (post_cart_add_existing id body_quantity s l1 e l2 Hc He Hl1).
      rewrite Hc, !filter_app. f_equal.
      rewrite !filter_cons_False; [done | by intros ? | by intros ?].
    - rewrite (post_cart_add_new id body_quantity s Hn), filter_app.
      rewrite filter_cons_False by (by intros ?). apply app_nil_r. }
  split; [done|]. intros Hn. rewrite Heq. by apply post_cart_remove_absent.
Qed.

Lemma remove_after_add_witness :
  cart_or_empty
    (post_cart_remove "S925B001"
       (post_cart_add "S925B001" (Some "4") Demo.session).1).1
  = Demo.cart.
Proof.
  apply (proj2 (remove_after_add "S925B001" (Some "4") Demo.session)).
  apply not_in_ids. by repeat constructor.
Defined.

Lemma filter_Boolean_app {A} (l1 l2 : list (option A)) :
  filter_Boolean (l1 ++ l2) = filter_Boolean l1 ++ filter_Boolean l2.
Proof.
  induction l1 as [|[x|] l1 IH]; simpl; [done | by rewrite IH | done].
Qed.

Lemma detailedCart_live_app products c1 c2 :
  detailedCart_live products (c1 ++ c2)
  = detailedCart_live products c1 ++ detailedCart_live products c2.
Proof.
  unfold detailedCart_live. by rewrite fmap_app, filter_Boolean_app.
Qed.

Lemma detailedCart_live_filter products id cart :
  detailedCart_live products
    (filter (λ item, CartEntry.productId item ≠ id) cart)
  = filter (λ li, Product.id (LineItem.product li) ≠ id)
      (detailedCart_live products cart).
Proof.
  induction cart as [|e cart IH]; [done|].
  rewrite detailedCart_live_cons.
  destruct (decide (CartEntry.productId e = id)) as [He|He].
  - rewrite filter_cons_False by (by intros ?). rewrite IH.
    destruct (find_product products (CartEntry.productId e)) as [p|] eqn:E;
      [|done].
    rewrite filter_cons_False; [done|]. simpl.
    apply find_product_Some in E as [E _]. intros Hp. apply Hp. congruence.
  - rewrite filter_cons_True by done. rewrite detailedCart_live_cons, IH.
    destruct (find_product products (CartEntry.productId e)) as [p|] eqn:E;
      [|done].
    rewrite filter_cons_True; [done|]. simpl.
    apply find_product_Some in E as [E _]. congruence.
Qed.

(** X9.  Removing an id commutes with materialisation: the cart view after
    [POST /cart/remove/:id] shows the line items it showed before, without
    those of the product with that id, and the total of what is left. *)
Theorem remove_commutes_with_materialisation `{!Json (list Product.t)}
    (id : string) (fs : gmap string string) (s : Session.t) :
  let products := readJson fs PRODUCTS_FILE in
  let cartItems := detailedCart_live products (cart_or_empty s) in
  let kept :=
    filter (λ li, Product.id (LineItem.product li) ≠ id) cartItems in
  get_cart fs (post_cart_remove id s).1
  = Render "cart" (CartLocals "Cart" kept (total_live kept)).
Proof.
  intros products cartItems kept. subst kept cartItems products.
  rewrite get_cart_eq.
  change (cart_or_empty (post_cart_remove id s).1)
    with (filter (λ item, CartEntry.productId item ≠ id) (cart_or_empty s)).
  by rewrite detailedCart_live_filter.
Qed.

(** ** Adding to the cart and the total *)

Lemma exact_line_eq products e :
  exact_line products e
  = match find_product products (CartEntry.productId e) with
    | Some p => Product.price p * Js.value (CartEntry.quantity e)
    | None => 0
    end.
Proof.
  unfold exact_line.
  destruct (find_product products (CartEntry.productId e)) as [p|]; [|done].
  destruct (CartEntry.quantity e); simpl; lia.
Qed.

Lemma exact_total_app products l1 l2 :
  exact_total products (l1 ++ l2)
  = exact_total products l1 + exact_total products l2.
Proof.
  induction l1 as [|e l1 IH]; [done|].
  change (exact_line products e + exact_total products (l1 ++ l2)
          = exact_line products e + exact_total products l1
            + exact_total products l2).
  lia.
Qed.

Lemma magnitude_app products l1 l2 :
  magnitude products (l1 ++ l2)
  = magnitude products l1 + magnitude products l2.
Proof.
  induction l1 as [|e l1 IH]; [done|].
  change (Z.abs (exact_line products e) + magnitude products (l1 ++ l2)
          = Z.abs (exact_line products e) + magnitude products l1
            + magnitude products l2).
  lia.
Qed.

Lemma exact_total_cons products e l :
  exact_total products (e :: l)
  = exact_line products e + exact_total products l.
Proof. done. Qed.

Lemma magnitude_cons products e l :
  magnitude products (e :: l)
  = Z.abs (exact_line products e) + magnitude products l.
Proof. done. Qed.

(** The total of a cart as the session store holds it is exact while the
    magnitudes of its lines sum to at most 2^53; a [null] quantity counts
    as 0. *)
Lemma foldl_add_line_stored products cart (a : Z) :
  Z.abs a + magnitude products (stored_entry <$> cart) ≤ 2 ^ 53 →
  foldl (add_line products) (Js.Num a) (stored_entry <$> cart)
  = Js.Num (a + exact_total products (stored_entry <$> cart)).
Proof.
  revert a. induction cart as [|e cart IH]; intros a Ha.
  - simpl. f_equal. lia.
  - rewrite fmap_cons in *.
    rewrite magnitude_cons in Ha. rewrite exact_total_cons.
    pose proof (magnitude_nonneg products (stored_entry <$> cart)) as Hpos.
    cbn [foldl]. rewrite exact_line_eq in *. unfold add_line at 2.
    destruct (find_product products
                (CartEntry.productId (stored_entry e))) as [p|].
    + assert (Js.mul (Js.Num (Product.price p))
                     (CartEntry.quantity (stored_entry e))
              = Js.number_of (Product.price p
                              * Js.value (CartEntry.quantity (stored_entry e))))
        as -> by (by destruct e as [? []]).
      rewrite number_of_exact by lia. rewrite add_exact by lia.
      rewrite IH by lia. f_equal; lia.
    + rewrite IH by lia. f_equal; lia.
Qed.

Lemma total_stored_exact products s :
  magnitude products (cart_or_empty (stored s)) ≤ 2 ^ 53 →
  total_live (detailedCart_live products (cart_or_empty (stored s)))
  = Js.Num (exact_total products (cart_or_empty (stored s))).
Proof.
  intros Hm. unfold total_live. rewrite foldl_live_add_line.
  rewrite cart_stored in *. rewrite foldl_add_line_stored; [done|].
  simpl. lia.
Qed.

(** The line of an entry whose quantity is raised by [q], after the store:
    the old line plus price times [q], while both are within 2^53. *)
Lemma exact_line_add products e (q : Z) :
  stored_entry e = e →
  let e' := stored_entry
              (CartEntry.mk (CartEntry.productId e)
                 (Js.add (CartEntry.quantity e) (Js.Num q))) in
  let line := match find_product products (CartEntry.productId e) with
              | Some p => Product.price p * q
              | None => 0
              end in
  Z.abs (exact_line products e) + Z.abs line ≤ 2 ^ 53 →
  exact_line products e' = exact_line products e + line.
Proof.
  intros He e' line. subst e' line. rewrite !exact_line_eq.
  cbn [stored_entry CartEntry.productId CartEntry.quantity].
  destruct (find_product products (CartEntry.productId e)) as [p|]; [|done].
  intros Hm.
  assert (Js.add (CartEntry.quantity e) (Js.Num q)
          = Js.number_of (Js.value (CartEntry.quantity e) + q)) as ->.
  { destruct e as [? []]; try done; simpl in He; discriminate. }
  set (v := Js.value (CartEntry.quantity e)) in *.
  destruct (decide (Product.price p = 0)) as [Hp|Hp].
  - rewrite Hp. lia.
  - rewrite number_of_exact by nia. cbn [stored_number Js.value]. lia.
Qed.

(** The cart that the store holds after [POST /cart/add/:id] with a
    quantity that parses to the integer [q]. *)
Lemma exact_after_add products id body_quantity s (q : Z) :
  let cart := cart_or_empty (stored s) in
  let cart' :=
    cart_or_empty (stored (post_cart_add id body_quantity (stored s)).1) in
  let line := match find_product products id with
              | Some p => Product.price p * q
              | None => 0
              end in
  Js.parseInt (Js.or_default body_quantity "1") = Js.Num q →
  magnitude products cart + Z.abs line ≤ 2 ^ 53 →
  exact_total products cart' = exact_total products cart + line
  ∧ magnitude products cart' ≤ magnitude products cart + Z.abs line.
Proof.
  intros cart cart' line Hq Hm. subst cart'. rewrite cart_stored.
  pose proof (stored_cart_fixed s) as Hfix. fold cart in Hfix.
  destruct (decide (id ∈ CartEntry.productId <$> cart)) as [Hin|Hn].
  - destruct (first_occurrence _ _ Hin) as (l1 & e & l2 & Hc & He & Hl1).
    rewrite (post_cart_add_existing id body_quantity (stored s) l1 e l2
               Hc He Hl1), Hq.
    destruct (stored_middle _ _ _ _ Hfix Hc) as (H1 & He1 & H2).
    rewrite fmap_app, fmap_cons, H1, H2.
    pose proof (exact_line_add products e q He1) as Hline.
    cbv zeta in Hline. rewrite He in Hline. fold line in Hline.
    rewrite Hc in *.
    rewrite !exact_total_app, !magnitude_app, !exact_total_cons,
      !magnitude_cons in *.
    pose proof (magnitude_nonneg products l1).
    pose proof (magnitude_nonneg products l2).
    rewrite Hline by lia. lia.
  - rewrite (post_cart_add_new id body_quantity (stored s) Hn), Hq.
    fold cart. rewrite fmap_app, Hfix.
    rewrite exact_total_app, magnitude_app.
    assert (exact_line products (CartEntry.mk id (Js.Num q)) = line) as Hl
      by (rewrite exact_line_eq; done).
    cbn [fmap list_fmap]. rewrite exact_total_cons, magnitude_cons.
    change (stored_entry (CartEntry.mk id (Js.Num q)))
      with (CartEntry.mk id (Js.Num q)).
    rewrite Hl. simpl. lia.
Qed.

(** X10.  [POST /cart/add/:id] with a quantity that parses to an integer
    raises the total of the cart view, read from the session store in the
    next request, by the price of the product times that quantity,
    whether the id was already in the cart or not, and leaves the total as
    it is when the id resolves to no product; this holds while the
    magnitudes of the lines sum to at most 2^53, the range in which the
    double sum is exact.  A quantity that fails to parse, added under a
    new id, is stored as [null] and leaves the total as it is. *)
Theorem add_raises_total_by_contribution `{!Json (list Product.t)}
    (id : string) (body_quantity : option string)
    (fs : gmap string string) (s : Session.t) :
  let products := readJson fs PRODUCTS_FILE in
  let qty := Js.parseInt (Js.or_default body_quantity "1") in
  let total c := total_live (detailedCart_live products (cart_or_empty c)) in
  let cart := cart_or_empty (stored s) in
  let s' := stored (post_cart_add id body_quantity (stored s)).1 in
  let line q := match find_product products id with
                | Some p => Product.price p * q
                | None => 0
                end in
  (∀ q, qty = Js.Num q →
        magnitude products cart + Z.abs (line q) ≤ 2 ^ 53 →
        total (stored s) = Js.Num (exact_total products cart)
        ∧ total s' = Js.Num (exact_total products cart + line q))
  ∧ (qty = Js.NaN → id ∉ CartEntry.productId <$> cart →
     magnitude products cart ≤ 2 ^ 53 →
     total s' = total (stored s)).
Proof.
  intros products qty total cart s' line. subst total. cbv beta. split.
  - intros q Hq Hm.
    destruct (exact_after_add products id body_quantity s q Hq Hm)
      as [Htotal Hmag].
    subst s'. rewrite !total_stored_exact; [by rewrite Htotal| |].
    + etrans; [exact Hmag | exact Hm].
    + subst cart. lia.
  - intros Hq Hnew Hm. subst s'. rewrite !total_stored_exact; [|done|].
    + f_equal. rewrite (cart_stored (post_cart_add _ _ _).1).
      rewrite (post_cart_add_new id body_quantity (stored s) Hnew).
      fold qty. rewrite Hq, fmap_app, stored_cart_fixed, exact_total_app.
      cbn [fmap list_fmap]. rewrite exact_total_cons, exact_line_eq.
      change (stored_entry (CartEntry.mk id Js.NaN))
        with (CartEntry.mk id Js.Null).
      cbn [CartEntry.productId CartEntry.quantity Js.value].
      fold cart. destruct (find_product products id); simpl; lia.
    + rewrite (cart_stored (post_cart_add _ _ _).1).
      rewrite (post_cart_add_new id body_quantity (stored s) Hnew).
      fold qty. rewrite Hq, fmap_app, stored_cart_fixed, magnitude_app.
      cbn [fmap list_fmap]. rewrite magnitude_cons, exact_line_eq.
      change (stored_entry (CartEntry.mk id Js.NaN))
        with (CartEntry.mk id Js.Null).
      cbn [CartEntry.productId CartEntry.quantity Js.value].
      fold cart. destruct (find_product products id); simpl; lia.
Qed.

Lemma add_raises_total_by_contribution_witness :
  total_live (detailedCart_live Demo.catalogue
                (cart_or_empty (stored Demo.session))) = Js.Num 109998
  ∧ total_live (detailedCart_live Demo.catalogue
       (cart_or_empty
          (stored (post_cart_add "G22B001" (Some "3")
                     (stored Demo.session)).1))) = Js.Num 166995
  ∧ total_live (detailedCart_live Demo.catalogue
       (cart_or_empty
          (stored (post_cart_add "S925B001" (Some "abc")
                     (stored Demo.session)).1))) = Js.Num 109998.
Proof.
  destruct (@add_raises_total_by_contribution Demo.products_json
              "G22B001" (Some "3") Demo.fs Demo.session) as [Hnum _].
  destruct (Hnum 3 eq_refl) as [Hbefore Hafter]; [by vm_compute|].
  destruct (@add_raises_total_by_contribution Demo.products_json
              "S925B001" (Some "abc") Demo.fs Demo.session) as [_ Hnan].
  split_and!.
  - exact Hbefore.
  - exact Hafter.
  - etrans; [|exact Hbefore].
    apply Hnan; [done | apply (bool_decide_unpack _); by vm_compute
                | by vm_compute].
Defined.

(** ** Updating twice *)

Lemma post_cart_update_eq body_quantity s :
  post_cart_update body_quantity s
  = (Session.mk (Session.user s)
       (Some (update_item (default ∅ body_quantity) <$> cart_or_empty s)),
     Redirect "/cart").
Proof. reflexivity. Qed.

Lemma update_item_twice quantities item :
  update_item quantities (update_item quantities item)
  = update_item quantities item.
Proof.
  rewrite (update_item_eq _ (update_item _ item)), update_item_id.
  rewrite (update_item_eq _ item).
  destruct (quantities !! CartEntry.productId item) as [v|].
  - by destruct (decide (v = "")).
  - by case_decide.
Qed.

(** X11.  Submitting the same quantities to [POST /cart/update] a second
    time changes nothing more.  A submission without a quantity object
    sets to 1 the entries whose id names a member that every object
    inherits ([constructor], [toString], ...) and leaves every other
    entry as it is; so it leaves a cart without such ids unchanged. *)
Theorem update_is_idempotent
    (body_quantity : option (gmap string string)) (s : Session.t) :
  post_cart_update body_quantity (post_cart_update body_quantity s).1
  = post_cart_update body_quantity s
  ∧ cart_or_empty (post_cart_update None s).1
    = (λ e, if decide (CartEntry.productId e ∈ Object_prototype_names)
            then CartEntry.mk (CartEntry.productId e) (Js.Num 1)
            else e) <$> cart_or_empty s
  ∧ (Forall (λ e, CartEntry.productId e ∉ Object_prototype_names)
       (cart_or_empty s) →
     cart_or_empty (post_cart_update None s).1 = cart_or_empty s).
Proof.
  assert (∀ e, update_item ∅ e
               = if decide (CartEntry.productId e ∈ Object_prototype_names)
                 then CartEntry.mk (CartEntry.productId e) (Js.Num 1)
                 else e) as Hempty.
  { intros e. by rewrite update_item_eq, lookup_empty. }
  split_and!.
  - rewrite !post_cart_update_eq. cbn [fst Session.user].
    change (cart_or_empty (Session.mk ?u (Some ?c))) with c.
    do 3 f_equal. rewrite <- list_fmap_compose. apply list_fmap_ext.
    intros i e _. apply update_item_twice.
  - rewrite post_cart_update_eq. cbn [fst].
    change (cart_or_empty (Session.mk ?u (Some ?c))) with c.
    apply list_fmap_ext. intros i e _.
    change (default ∅ None) with (∅ : gmap string string). apply Hempty.
  - intros Hids. rewrite post_cart_update_eq. cbn [fst].
    change (cart_or_empty (Session.mk ?u (Some ?c))) with c.
    rewrite <- (list_fmap_id (cart_or_empty s)) at 2.
    apply list_fmap_ext. intros i e He.
    change (default ∅ None) with (∅ : gmap string string).
    rewrite Hempty. rewrite decide_False; [done|].
    by apply (Forall_lookup_1 _ _ _ _ Hids He).
Qed.

Lemma update_is_idempotent_witness :
  cart_or_empty (post_cart_update None Demo.session).1
  = cart_or_empty Demo.session
  ∧ cart_or_empty
      (post_cart_update None
         (Session.mk None
            (Some [CartEntry.mk "constructor" (Js.Num 5)]))).1
    = [CartEntry.mk "constructor" (Js.Num 1)].
Proof.
  split.
  - apply (update_is_idempotent None Demo.session).
    apply (bool_decide_unpack _). by vm_compute.
  - by vm_compute.
Defined.

(** ** After the order *)

(** X12.  After a successful [POST /checkout] the cart view is empty with
    total 0, the checkout form sends back to [/cart], and no file but the
    order collection has changed. *)
Theorem cart_is_empty_after_order
    `{!Json (list Product.t)} `{!Json (list Order.t)}
    now iso b (fs : gmap string string) (s : Session.t) u :
  Session.user s = Some u →
  all_fields_present b →
  let fs' := (post_checkout now iso b fs s).1.1 in
  let s' := (post_checkout now iso b fs s).1.2 in
  get_cart fs' s' = Render "cart" (CartLocals "Cart" [] (Js.Num 0))
  ∧ get_checkout fs' s' = Redirect "/cart"
  ∧ (∀ path, path ≠ ORDERS_FILE → fs' !! path = fs !! path).
Proof.
  intros Hu Hall fs' s'. subst fs' s'.
  apply missing_field_false in Hall.
  rewrite (post_checkout_complete now iso b fs s u Hu Hall). simpl.
  split_and!.
  - done.
  - by apply (get_checkout_empty _ _ u).
  - intros path Hp. unfold writeJson, writeFileSync.
    by rewrite lookup_insert_ne.
Qed.

Lemma cart_is_empty_after_order_witness :
  let r := @post_checkout Demo.products_json Demo.orders_json
             1700000000123 "2023-11-14T22:13:20.123Z" Demo.body
             Demo.fs Demo.session in
  @get_checkout Demo.products_json r.1.1 r.1.2 = Redirect "/cart".
Proof.
  assert (all_fields_present Demo.body) as Hall.
  { by apply missing_field_false. }
  apply (@cart_is_empty_after_order Demo.products_json Demo.orders_json
           1700000000123 "2023-11-14T22:13:20.123Z" Demo.body
           Demo.fs Demo.session Demo.asha eq_refl Hall).
Defined.

(** ** Accounts *)

Section Accounts.
Context `{!Json (list User.t)} `{!Bcrypt}.

Lemma form_incomplete_false name email phone last :
  form_incomplete name email phone last = false
  ↔ present name ∧ (present email ∨ present phone) ∧ present last.
Proof.
  unfold form_incomplete. rewrite <- !truthy_field_present.
  destruct (Js.truthy_field name), (Js.truthy_field email),
    (Js.truthy_field phone), (Js.truthy_field last); simpl;
    intuition congruence.
Qed.

Lemma same_field_true f stored :
  same_field f stored = true ↔ present f ∧ stored = f.
Proof.
  unfold same_field.
  by rewrite andb_true_iff, truthy_field_present, bool_decide_eq_true.
Qed.

Lemma or_null_present f : present f → or_null f = f.
Proof.
  intros Hp. apply truthy_field_present in Hp. unfold or_null.
  by rewrite Hp.
Qed.

Lemma or_null_Some f v : or_null f = Some v → present f ∧ f = Some v.
Proof.
  unfold or_null. destruct (Js.truthy_field f) eqn:E; [|done].
  intros ->. split; [by apply truthy_field_present | done].
Qed.

Lemma post_register_success now salt b fs s :
  form_incomplete (RegisterBody.name b) (RegisterBody.email b)
    (RegisterBody.phone b) (RegisterBody.password b) = false →
  Forall (λ u, ¬ shares_contact b u) (readJson fs USERS_FILE) →
  post_register now salt b fs s
  = (writeJson fs USERS_FILE (readJson fs USERS_FILE ++ [newUser now salt b]),
     Session.mk (Some (session_user (newUser now salt b))) (Session.cart s),
     RedirectTo "/").
Proof.
  intros Hc Hfree. unfold post_register. rewrite Hc.
  by rewrite (proj2 (list_find_None _ _) Hfree).
Qed.

Lemma post_register_failure now salt b fs s :
  form_incomplete (RegisterBody.name b) (RegisterBody.email b)
    (RegisterBody.phone b) (RegisterBody.password b) = true
  ∨ ¬ Forall (λ u, ¬ shares_contact b u) (readJson fs USERS_FILE) →
  ∃ message,
    post_register now salt b fs s
    = (fs, s, RenderPage "auth-register" (AuthLocals "Sign Up" message)).
Proof.
  intros Hfail. unfold post_register.
  destruct (form_incomplete _ _ _ _) eqn:Hc; [by eexists|].
  destruct Hfail as [?|Hn]; [done|].
  destruct (list_find (shares_contact b) (readJson fs USERS_FILE)) eqn:E;
    [by eexists|].
  destruct Hn. by apply (proj1 (list_find_None _ _)).
Qed.

(** X13.  [POST /register] redirects to [/] exactly when name and password
    are present, email or phone is present, and no stored user has the
    submitted email as email or the submitted phone as phone.  Then it has
    appended one user to the user collection and put that user's
    projection into the session; otherwise store and session are as
    before.  It never touches the cart or another file. *)
Theorem register_writes_only_on_success
    now salt (b : RegisterBody.t) (fs : gmap string string) (s : Session.t) :
  let r := post_register now salt b fs s in
  let users : list User.t := readJson fs USERS_FILE in
  (r.2 = RedirectTo "/"
   ↔ (present (RegisterBody.name b)
      ∧ (present (RegisterBody.email b) ∨ present (RegisterBody.phone b))
      ∧ present (RegisterBody.password b))
     ∧ Forall (λ u,
                 ¬ (present (RegisterBody.email b)
                    ∧ User.email u = RegisterBody.email b)
                 ∧ ¬ (present (RegisterBody.phone b)
                      ∧ User.phone u = RegisterBody.phone b))
              users)
  ∧ (r.2 = RedirectTo "/" →
     r.1.1 = writeJson fs USERS_FILE (users ++ [newUser now salt b])
     ∧ r.1.2 = Session.mk (Some (session_user (newUser now salt b)))
                 (Session.cart s))
  ∧ (r.2 ≠ RedirectTo "/" → r.1.1 = fs ∧ r.1.2 = s)
  ∧ Session.cart r.1.2 = Session.cart s
  ∧ (∀ path, path ≠ USERS_FILE → r.1.1 !! path = fs !! path).
Proof.
  intros r users.
  assert (Forall (λ u, ¬ shares_contact b u) users
          ↔ Forall (λ u,
                      ¬ (present (RegisterBody.email b)
                         ∧ User.email u = RegisterBody.email b)
                      ∧ ¬ (present (RegisterBody.phone b)
                           ∧ User.phone u = RegisterBody.phone b))
                   users) as Hfree.
  { apply Forall_proper; [|done]. intros u. unfold shares_contact.
    rewrite !same_field_true. tauto. }
  rewrite <- form_incomplete_false, <- Hfree. clear Hfree.
  destruct (form_incomplete (RegisterBody.name b) (RegisterBody.email b)
              (RegisterBody.phone b) (RegisterBody.password b)) eqn:Hc.
  - destruct (post_register_failure now salt b fs s (or_introl Hc))
      as [message Hr].
    subst r. rewrite Hr. simpl. split_and!; try done.
    split; [done | by intros [? _]].
  - destruct (decide (Forall (λ u, ¬ shares_contact b u) users))
      as [Hfree|Hn].
    + subst r. rewrite (post_register_success now salt b fs s Hc Hfree).
      simpl. split_and!; try done.
      intros path Hp. unfold writeJson, writeFileSync.
      by rewrite lookup_insert_ne.
    + destruct (post_register_failure now salt b fs s (or_intror Hn))
        as [message Hr].
      subst r. rewrite Hr. simpl. split_and!; try done.
      split; [done | by intros [_ ?]].
Qed.

Lemma register_keeps_new_contact_fresh b (users : list User.t) :
  Forall (λ u, ¬ shares_contact b u) users →
  (∀ v, or_null (RegisterBody.email b) = Some v
        → Some v ∉ User.email <$> users)
  ∧ (∀ v, or_null (RegisterBody.phone b) = Some v
          → Some v ∉ User.phone <$> users).
Proof.
  intros Hfree. split.
  - intros v [Hp Hv]%or_null_Some (u & Hu & Hin)%list_elem_of_fmap.
    apply (proj1 (Forall_forall _ _) Hfree u Hin). unfold shares_contact.
    rewrite !same_field_true. left. split; congruence.
  - intros v [Hp Hv]%or_null_Some (u & Hu & Hin)%list_elem_of_fmap.
    apply (proj1 (Forall_forall _ _) Hfree u Hin). unfold shares_contact.
    rewrite !same_field_true. right. split; congruence.
Qed.

Lemma omap_snoc {A B} (f : A → option B) (l : list A) (x : A) :
  omap f (l ++ [x]) = omap f l ++ option_list (f x).
Proof.
  rewrite omap_app. by f_equal.
Qed.

Lemma elem_of_omap_Some {A B} (f : A → option B) (l : list A) (y : B) :
  y ∈ omap f l ↔ Some y ∈ f <$> l.
Proof.
  rewrite list_elem_of_omap, list_elem_of_fmap. split.
  - intros (x & Hx & Hf). by exists x.
  - intros (x & Hf & Hx). by exists x.
Qed.

Lemma NoDup_omap_snoc {A B} (f : A → option B) (l : list A) (x : A) :
  NoDup (omap f l) →
  (∀ v, f x = Some v → Some v ∉ f <$> l) →
  NoDup (omap f (l ++ [x])).
Proof.
  intros Hnd Hfresh. rewrite omap_snoc.
  destruct (f x) as [v|] eqn:E; simpl; [|by rewrite app_nil_r].
  apply NoDup_app. split_and!; [done | | apply NoDup_singleton].
  intros y Hy Hy'. apply list_elem_of_singleton in Hy' as ->.
  apply (Hfresh v eq_refl). by apply elem_of_omap_Some.
Qed.

(** X14.  Registration keeps emails and phones unique: when no two stored
    users share an email and no two share a phone, the same holds of the
    user collection after [POST /register], whatever was submitted (under
    a codec that reads the written collection back). *)
Theorem register_keeps_contacts_unique
    now salt (b : RegisterBody.t) (fs : gmap string string) (s : Session.t) :
  let users : list User.t := readJson fs USERS_FILE in
  round_trips (users ++ [newUser now salt b]) →
  unique_contacts users →
  unique_contacts (readJson (post_register now salt b fs s).1.1 USERS_FILE).
Proof.
  intros users [Hne Hrt] [Hemail Hphone]. subst users.
  destruct (form_incomplete (RegisterBody.name b) (RegisterBody.email b)
              (RegisterBody.phone b) (RegisterBody.password b)) eqn:Hc.
  { destruct (post_register_failure now salt b fs s (or_introl Hc))
      as [message ->]. by split. }
  destruct (decide (Forall (λ u, ¬ shares_contact b u)
                      (readJson fs USERS_FILE))) as [Hfree|Hn].
  - rewrite (post_register_success now salt b fs s Hc Hfree). cbn [fst].
    rewrite (readJson_written fs USERS_FILE _ Hne Hrt).
    destruct (register_keeps_new_contact_fresh b _ Hfree) as [He Hp].
    split; by apply NoDup_omap_snoc.
  - destruct (post_register_failure now salt b fs s (or_intror Hn))
      as [message ->]. by split.
Qed.

Lemma post_register_redirect now salt b fs s :
  (post_register now salt b fs s).2 = RedirectTo "/" →
  form_incomplete (RegisterBody.name b) (RegisterBody.email b)
    (RegisterBody.phone b) (RegisterBody.password b) = false
  ∧ Forall (λ u, ¬ shares_contact b u) (readJson fs USERS_FILE).
Proof.
  intros Hr.
  destruct (form_incomplete (RegisterBody.name b) (RegisterBody.email b)
              (RegisterBody.phone b) (RegisterBody.password b)) eqn:Hc.
  { destruct (post_register_failure now salt b fs s (or_introl Hc))
      as [message Hf]. by rewrite Hf in Hr. }
  split; [done|].
  destruct (decide (Forall (λ u, ¬ shares_contact b u)
                      (readJson fs USERS_FILE))) as [Hfree|Hn]; [done|].
  destruct (post_register_failure now salt b fs s (or_intror Hn))
    as [message Hf]. by rewrite Hf in Hr.
Qed.

Lemma post_login_found b fs s identifier password l1 u l2 :
  LoginBody.identifier b = Some identifier → identifier ≠ "" →
  LoginBody.password b = Some password → password ≠ "" →
  readJson fs USERS_FILE = l1 ++ u :: l2 →
  has_identifier identifier u →
  Forall (λ v, ¬ has_identifier identifier v) l1 →
  post_login b fs s
  = if bcrypt_compare password (User.password u)
    then (Session.mk (Some (session_user u)) (Session.cart s),
          RedirectTo "/")
    else (s, RenderPage "auth-login"
               (AuthLocals "Login" (Some "Incorrect password."))).
Proof.
  intros Hi Hine Hp Hpne Hu Hm Hl1. unfold post_login.
  rewrite Hi, Hp. simpl.
  destruct identifier; [done|]. destruct password; [done|]. simpl.
  rewrite Hu, (list_find_first _ l1 u l2 Hl1 Hm).
  by destruct (bcrypt_compare _ (User.password u)).
Qed.

Lemma post_login_unknown b fs s identifier :
  LoginBody.identifier b = Some identifier → identifier ≠ "" →
  present (LoginBody.password b) →
  Forall (λ v, ¬ has_identifier identifier v) (readJson fs USERS_FILE) →
  post_login b fs s
  = (s, RenderPage "auth-login"
          (AuthLocals "Login" (Some "User not found."))).
Proof.
  intros Hi Hine (password & Hp & Hpne) Hnone. unfold post_login.
  rewrite Hi, Hp. simpl.
  destruct identifier; [done|]. destruct password; [done|]. simpl.
  by rewrite (proj2 (list_find_None _ _) Hnone).
Qed.

(** X15.  [POST /login] checks the password against the first stored user
    whose email or phone equals the identifier, and against no other: it
    puts that user's projection into the session and redirects to [/] when
    bcrypt accepts, answers "Incorrect password." when it does not, and
    "User not found." when no user has the identifier.  It never changes
    the cart, and leaves the session as it is unless it redirects. *)
Theorem login_checks_first_match
    (b : LoginBody.t) (fs : gmap string string) (s : Session.t) :
  let r := post_login b fs s in
  let users : list User.t := readJson fs USERS_FILE in
  (∀ identifier password l1 u l2,
     LoginBody.identifier b = Some identifier → identifier ≠ "" →
     LoginBody.password b = Some password → password ≠ "" →
     users = l1 ++ u :: l2 →
     has_identifier identifier u →
     Forall (λ v, ¬ has_identifier identifier v) l1 →
     r = if bcrypt_compare password (User.password u)
         then (Session.mk (Some (session_user u)) (Session.cart s),
               RedirectTo "/")
         else (s, RenderPage "auth-login"
                    (AuthLocals "Login" (Some "Incorrect password."))))
  ∧ (∀ identifier,
       LoginBody.identifier b = Some identifier → identifier ≠ "" →
       present (LoginBody.password b) →
       Forall (λ v, ¬ has_identifier identifier v) users →
       r = (s, RenderPage "auth-login"
                 (AuthLocals "Login" (Some "User not found."))))
  ∧ Session.cart r.1 = Session.cart s
  ∧ (r.2 ≠ RedirectTo "/" → r.1 = s).
Proof.
  intros r users. split_and!.
  - intros identifier password l1 u l2 Hi Hine Hp Hpne Hu Hm Hl1.
    by apply (post_login_found b fs s identifier password l1 u l2).
  - intros identifier Hi Hine Hp Hnone.
    by apply (post_login_unknown b fs s identifier).
  - subst r. unfold post_login.
    destruct (negb _ || negb _); [done|].
    destruct (list_find _ _) as [[i u]|]; [|done].
    by destruct (negb _).
  - subst r. unfold post_login.
    destruct (negb _ || negb _); [done|].
    destruct (list_find _ _) as [[i u]|]; [|done].
    by destruct (negb _).
Qed.

(** X16.  Register, then log in: when [POST /register] has redirected to
    [/], bcrypt accepts a password against its own hash, and no earlier
    user has the new user's email or phone in either field, then
    [POST /login] with that email or phone and the same password, from any
    session, logs in the registered user (under a codec that reads the
    written collection back). *)
Theorem register_then_login
    now salt (b : RegisterBody.t) (fs : gmap string string)
    (s s0 : Session.t) (identifier : string) :
  let users : list User.t := readJson fs USERS_FILE in
  let password := field_value (RegisterBody.password b) in
  (post_register now salt b fs s).2 = RedirectTo "/" →
  round_trips (users ++ [newUser now salt b]) →
  bcrypt_compare password (bcrypt_hash salt password) = true →
  or_null (RegisterBody.email b) = Some identifier
  ∨ or_null (RegisterBody.phone b) = Some identifier →
  Forall (λ u, ¬ has_identifier identifier u) users →
  post_login (LoginBody.mk (Some identifier) (RegisterBody.password b))
    (post_register now salt b fs s).1.1 s0
  = (Session.mk (Some (session_user (newUser now salt b))) (Session.cart s0),
     RedirectTo "/").
Proof.
  intros users password Hr [Hne Hrt] Hbcrypt Hid Hfresh.
  destruct (post_register_redirect now salt b fs s Hr) as [Hc Hfree].
  rewrite (post_register_success now salt b fs s Hc Hfree). cbn [fst].
  apply form_incomplete_false in Hc as (_ & _ & (pw & Hpw & Hpwne)).
  assert (identifier ≠ "") as Hine.
  { destruct Hid as [[Hp Hv]%or_null_Some | [Hp Hv]%or_null_Some];
      destruct Hp as (v & Hv' & Hvne); congruence. }
  rewrite (post_login_found _ _ s0 identifier pw users
             (newUser now salt b) []).
  - subst password. rewrite Hpw in Hbcrypt. simpl in *.
    unfold newUser at 1. simpl. rewrite Hpw. simpl. by rewrite Hbcrypt.
  - done.
  - done.
  - done.
  - done.
  - by apply readJson_written.
  - unfold has_identifier, newUser. simpl. tauto.
  - done.
Qed.

(** X17.  The duplicate check of [POST /register] compares email with
    emails and phone with phones, while [POST /login] looks the identifier
    up in both fields.  So when an earlier user holds, in either field,
    the identifier a user has just registered with, and bcrypt rejects the
    password against that earlier user's hash, the new user's login
    answers "Incorrect password." *)
Theorem login_shadowed_by_earlier_user
    now salt (b : RegisterBody.t) (fs : gmap string string)
    (s s0 : Session.t) (identifier : string) l1 u0 l2 :
  let users : list User.t := readJson fs USERS_FILE in
  (post_register now salt b fs s).2 = RedirectTo "/" →
  round_trips (users ++ [newUser now salt b]) →
  or_null (RegisterBody.email b) = Some identifier
  ∨ or_null (RegisterBody.phone b) = Some identifier →
  users = l1 ++ u0 :: l2 →
  has_identifier identifier u0 →
  Forall (λ v, ¬ has_identifier identifier v) l1 →
  bcrypt_compare (field_value (RegisterBody.password b)) (User.password u0)
  = false →
  post_login (LoginBody.mk (Some identifier) (RegisterBody.password b))
    (post_register now salt b fs s).1.1 s0
  = (s0, RenderPage "auth-login"
           (AuthLocals "Login" (Some "Incorrect password."))).
Proof.
  intros users Hr [Hne Hrt] Hid Hu Hm Hl1 Hbcrypt. subst users.
  destruct (post_register_redirect now salt b fs s Hr) as [Hc Hfree].
  rewrite (post_register_success now salt b fs s Hc Hfree). cbn [fst].
  apply form_incomplete_false in Hc as (_ & _ & (pw & Hpw & Hpwne)).
  assert (identifier ≠ "") as Hine.
  { destruct Hid as [[Hp Hv]%or_null_Some | [Hp Hv]%or_null_Some];
      destruct Hp as (v & Hv' & Hvne); congruence. }
  rewrite (post_login_found _ _ s0 identifier pw l1 u0
             (l2 ++ [newUser now salt b])).
  - rewrite Hpw in Hbcrypt. simpl in Hbcrypt. by rewrite Hbcrypt.
  - done.
  - done.
  - done.
  - done.
  - rewrite (readJson_written fs USERS_FILE _ Hne Hrt).
    by rewrite Hu, <- app_assoc.
  - done.
  - done.
Qed.

End Accounts.

Lemma register_then_login_witness :
  let r := @post_register DemoAccounts.users_json DemoAccounts.bcrypt
             1700000000500 "s4lt" DemoAccounts.register_body
             DemoAccounts.fs (Session.mk None None) in
  @post_login DemoAccounts.users_json DemoAccounts.bcrypt
    DemoAccounts.login_body r.1.1 (Session.mk None (Some Demo.cart))
  = (Session.mk (Some (session_user DemoAccounts.priya)) (Some Demo.cart),
     RedirectTo "/").
Proof.
  apply (@register_then_login DemoAccounts.users_json DemoAccounts.bcrypt
           1700000000500 "s4lt" DemoAccounts.register_body DemoAccounts.fs
           (Session.mk None None) (Session.mk None (Some Demo.cart))
           "priya@example.com").
  - reflexivity.
  - split; [by vm_compute | reflexivity].
  - reflexivity.
  - left. reflexivity.
  - constructor.
Defined.

Lemma register_keeps_contacts_unique_witness :
  unique_contacts
    (@readJson _ DemoAccounts.users_json
       (@post_register DemoAccounts.users_json DemoAccounts.bcrypt
          1700000000500 "s4lt" DemoAccounts.register_body
          {[ USERS_FILE := "[U1600000000000]" ]} (Session.mk None None)).1.1
       USERS_FILE).
Proof.
  apply (@register_keeps_contacts_unique
           DemoAccounts.users_json DemoAccounts.bcrypt).
  - split; [by vm_compute | reflexivity].
  - split; vm_compute; repeat constructor; by intros ?%elem_of_nil.
Defined.

Lemma login_shadowed_by_earlier_user_witness :
  let r := @post_register DemoAccounts.users_json DemoAccounts.bcrypt
             1700000000500 "s4lt" DemoAccounts.register_body
             {[ USERS_FILE := "[U1600000000000]" ]} (Session.mk None None) in
  r.2 = RedirectTo "/"
  ∧ @post_login DemoAccounts.users_json DemoAccounts.bcrypt
      DemoAccounts.login_body r.1.1 (Session.mk None None)
    = (Session.mk None None,
       RenderPage "auth-login"
         (AuthLocals "Login" (Some "Incorrect password."))).
Proof.
  split; [reflexivity|].
  apply (@login_shadowed_by_earlier_user
           DemoAccounts.users_json DemoAccounts.bcrypt
           1700000000500 "s4lt" DemoAccounts.register_body
           {[ USERS_FILE := "[U1600000000000]" ]}
           (Session.mk None None) (Session.mk None None)
           "priya@example.com" [] DemoAccounts.ravi []).
  - reflexivity.
  - split; [by vm_compute | reflexivity].
  - left. reflexivity.
  - reflexivity.
  - right. reflexivity.
  - constructor.
  - reflexivity.
Defined.

Lemma register_writes_only_on_success_witness :
  let r := @post_register DemoAccounts.users_json DemoAccounts.bcrypt
             1700000000500 "s4lt" DemoAccounts.register_body
             DemoAccounts.fs (Session.mk None (Some Demo.cart)) in
  r.1.1 !! USERS_FILE = Some "[U1700000000500]"
  ∧ r.1.2 = Session.mk (Some (session_user DemoAccounts.priya))
              (Some Demo.cart).
Proof.
  destruct (@register_writes_only_on_success
              DemoAccounts.users_json DemoAccounts.bcrypt
              1700000000500 "s4lt" DemoAccounts.register_body
              DemoAccounts.fs (Session.mk None (Some Demo.cart)))
    as (_ & Hok & _).
  destruct (Hok eq_refl) as [Hfs Hs].
  intros r. subst r. rewrite Hfs, Hs. split; reflexivity.
Defined.

Lemma login_checks_first_match_witness :
  @post_login DemoAccounts.users_json DemoAccounts.bcrypt
    (LoginBody.mk (Some "priya@example.com") (Some "wrong"))
    {[ USERS_FILE := "[U1700000000500]" ]} (Session.mk None None)
  = (Session.mk None None,
     RenderPage "auth-login"
       (AuthLocals "Login" (Some "Incorrect password."))).
Proof.
  destruct (@login_checks_first_match
              DemoAccounts.users_json DemoAccounts.bcrypt
              (LoginBody.mk (Some "priya@example.com") (Some "wrong"))
              {[ USERS_FILE := "[U1700000000500]" ]} (Session.mk None None))
    as (Hfound & _).
  apply (Hfound "priya@example.com" "wrong" [] DemoAccounts.priya []);
    try done.
  by left.
Defined.

(** ** Contact *)

(** X18.  [POST /contact] writes nothing unless name and message are
    present and email or phone is present.  Then it appends one record
    with status "Pending", the submitted name and message, and [null] for
    an email or phone left empty; the earlier records stay in front of it
    (under a codec that reads the written collection back).  It never
    touches another file. *)
Theorem contact_appends_one_pending `{!Json (list Contact.t)}
    now iso (b : ContactBody.t) (fs : gmap string string) :
  let r := post_contact now iso b fs in
  let contacts : list Contact.t := readJson fs CONTACTS_FILE in
  let c := newContact now iso b in
  let complete :=
    present (ContactBody.name b)
    ∧ (present (ContactBody.email b) ∨ present (ContactBody.phone b))
    ∧ present (ContactBody.message b) in
  (¬ complete →
   r = (fs, RenderPage "contact"
              (ContactLocals "Contact" None
                 (Some "Please fill all required fields."))))
  ∧ (complete →
     r = (writeJson fs CONTACTS_FILE (contacts ++ [c]),
          RenderPage "contact"
            (ContactLocals "Contact"
               (Some "Thank you! We will contact you soon.") None))
     ∧ Contact.status c = "Pending"
     ∧ Some (Contact.name c) = ContactBody.name b
     ∧ Some (Contact.message c) = ContactBody.message b
     ∧ (∀ v, Contact.email c = Some v
             ↔ ContactBody.email b = Some v ∧ v ≠ "")
     ∧ (∀ v, Contact.phone c = Some v
             ↔ ContactBody.phone b = Some v ∧ v ≠ "")
     ∧ (round_trips (contacts ++ [c]) →
        readJson r.1 CONTACTS_FILE = contacts ++ [c]))
  ∧ (∀ path, path ≠ CONTACTS_FILE → r.1 !! path = fs !! path).
Proof.
  intros r contacts c complete. subst r contacts c complete.
  rewrite <- form_incomplete_false. unfold post_contact.
  destruct (form_incomplete (ContactBody.name b) (ContactBody.email b)
              (ContactBody.phone b) (ContactBody.message b)) eqn:Hc.
  - split_and!; done.
  - apply form_incomplete_false in Hc as ((n & Hn & _) & _ & (m & Hm & _)).
    assert (∀ f v, or_null f = Some v ↔ f = Some v ∧ v ≠ "") as Hnull.
    { intros f v. split.
      - intros [(w & Hw & Hwne) Hf]%or_null_Some. split; congruence.
      - intros [-> Hv]. apply or_null_present. by exists v. }
    split_and!.
    + done.
    + intros _. split_and!; [reflexivity | done | | | | |].
      * simpl. by rewrite Hn.
      * simpl. by rewrite Hm.
      * intros v. apply Hnull.
      * intros v. apply Hnull.
      * intros [Hne Hrt]. cbn [fst]. by apply readJson_written.
    + intros path Hp. cbn [fst]. unfold writeJson, writeFileSync.
      by rewrite lookup_insert_ne.
Qed.

Lemma contact_appends_one_pending_witness :
  @readJson _ DemoAccounts.contacts_json
    (@post_contact DemoAccounts.contacts_json
       1700000000900 "2023-11-14T22:26:40.900Z" DemoAccounts.contact_body
       DemoAccounts.fs).1 CONTACTS_FILE
  = [DemoAccounts.contact].
Proof.
  destruct (@contact_appends_one_pending DemoAccounts.contacts_json
              1700000000900 "2023-11-14T22:26:40.900Z"
              DemoAccounts.contact_body DemoAccounts.fs)
    as (_ & Hok & _).
  destruct Hok as (_ & _ & _ & _ & _ & _ & Hread).
  { split_and!; [by eexists | right; by eexists | by eexists]. }
  rewrite Hread; [reflexivity|].
  split; [by vm_compute | reflexivity].
Defined.

(** ** The orders page *)

(** X19.  After a successful [POST /checkout] the user's orders page lists
    the orders it listed before, in their order, followed by the new
    order, and the orders page of a user with another id is as it was
    (under a codec that reads the written collection back). *)
Theorem order_appears_on_own_orders_page
    `{!Json (list Product.t)} `{!Json (list Order.t)}
    now iso b (fs : gmap string string) (s : Session.t) u :
  let orders : list Order.t := readJson fs ORDERS_FILE in
  let items :=
    detailedCart_snapshot (readJson fs PRODUCTS_FILE) (cart_or_empty s) in
  let order := newOrder now iso u b items (total_snapshot items) in
  let fs' := (post_checkout now iso b fs s).1.1 in
  let s' := (post_checkout now iso b fs s).1.2 in
  Session.user s = Some u →
  all_fields_present b →
  round_trips (orders ++ [order]) →
  get_orders fs' s'
  = Render "orders"
      (OrdersLocals "My Orders"
         (filter (λ o, Order.userId o = SessionUser.id u) orders ++ [order]))
  ∧ (∀ s2 u2,
       Session.user s2 = Some u2 → SessionUser.id u2 ≠ SessionUser.id u →
       get_orders fs' s2 = get_orders fs s2).
Proof.
  intros orders items order fs' s' Hu Hall [Hne Hrt].
  subst fs' s'. apply missing_field_false in Hall.
  rewrite (post_checkout_complete now iso b fs s u Hu Hall). cbn [fst snd].
  fold items. fold order. fold orders.
  assert (readJson (writeJson fs ORDERS_FILE (orders ++ [order])) ORDERS_FILE
          = orders ++ [order]) as Hread by (by apply readJson_written).
  split.
  - unfold get_orders, requireLogin. cbn [Session.user Session.set_cart].
    rewrite Hu, Hread, filter_app. do 3 f_equal.
    by rewrite filter_cons_True.
  - intros s2 u2 Hu2 Hother. unfold get_orders, requireLogin.
    rewrite Hu2, Hread, filter_app. do 3 f_equal.
    rewrite filter_cons_False; [apply app_nil_r|].
    simpl. congruence.
Qed.

Lemma order_appears_on_own_orders_page_witness :
  let r := @post_checkout Demo.products_json Demo.orders_json
             1700000000123 "2023-11-14T22:13:20.123Z" Demo.body
             Demo.fs Demo.session in
  @get_orders Demo.orders_json r.1.1 r.1.2
  = Render "orders" (OrdersLocals "My Orders" [Demo.order]).
Proof.
  assert (all_fields_present Demo.body) as Hall.
  { by apply missing_field_false. }
  refine (proj1 (@order_appears_on_own_orders_page
                   Demo.products_json Demo.orders_json
                   1700000000123 "2023-11-14T22:13:20.123Z" Demo.body
                   Demo.fs Demo.session Demo.asha eq_refl Hall _)).
  split; [by vm_compute | reflexivity].
Defined.
